(** * HogQL parse-tree converter (posthog/hogql/parser.py)

    A shallow embedding of [HogQLParseTreeConverter]: the ANTLR parse tree
    (CST) is an inductive family with one type per grammar rule and one
    constructor per labelled alternative, the AST is the [ast] module's
    node classes, and every [visitXxx] method is a function into an
    exception monad. *)

From Stdlib Require Import ZArith List String Ascii Bool Lia.
From stdpp Require Import base option list strings gmap.

Import ListNotations.
Local Open Scope string_scope.
Local Open Scope Z_scope.
Local Open Scope list_scope.

Set Warnings "-register-all".

(** ** Python values held by [ast.Constant] *)

(** [float(text)] is kept symbolic: a float value is identified by the
    literal text it was read from. *)
Inductive value : Type :=
  | VNone
  | VBool (b : bool)
  | VInt (z : Z)
  | VFloat (text : string)
  | VStr (s : string).

(** [isinstance(v, int)]: [bool] is a subclass of [int] in Python. *)
Definition isinstance_int (v : value) : bool :=
  match v with
  | VInt _ | VBool _ => true
  | _ => false
  end.

Definition is_str (v : value) : bool :=
  match v with VStr _ => true | _ => false end.

(** ** The AST ([posthog.hogql.ast])

    The node classes are declared outside the converter's module; a
    constructor is taken to store the keyword arguments it is given and to
    default every other field to [None]. *)

Module BinaryOperationType.
Inductive t : Type := Add | Sub | Mult | Div | Mod.
End BinaryOperationType.

Module CompareOperationType.
Inductive t : Type :=
  | Eq | NotEq | Gt | GtE | Lt | LtE
  | Like | ILike | NotLike | NotILike | In | NotIn.
End CompareOperationType.

Inductive expr : Type :=
  | Constant (v : value)
  | FieldAccess (field : string)
  | FieldAccessChain (chain : list value)
  | Placeholder (field : string)
  | BinaryOperation (left right : expr) (op : BinaryOperationType.t)
  | CompareOperation (left right : expr) (op : CompareOperationType.t)
  | And (exprs : list expr)
  | Or (exprs : list expr)
  | Not (e : expr)
  | Call (name : string) (args : list expr)
  | JoinExpr (table : option expr) (table_final : option bool)
             (alias : option string) (join_type : option string)
             (join_constraint : option expr) (join_expr : option expr)
  | SelectQuery (select : list expr) (select_from : option expr)
                (where_ prewhere having : option expr)
                (limit offset : option value).

Definition is_And (e : expr) : bool :=
  match e with And _ => true | _ => false end.

Definition is_Or (e : expr) : bool :=
  match e with Or _ => true | _ => false end.

Definition is_Constant (e : expr) : bool :=
  match e with Constant _ => true | _ => false end.

(** [isinstance(e, ast.FieldAccess) or isinstance(e, ast.FieldAccessChain)]. *)
Definition is_field (e : expr) : bool :=
  match e with FieldAccess _ | FieldAccessChain _ => true | _ => false end.

Definition is_SelectQuery (e : expr) : bool :=
  match e with SelectQuery _ _ _ _ _ _ _ => true | _ => false end.

(** ** Exceptions and the exception monad *)

Inductive exn : Type :=
  | NotImplementedError (msg : string)
  | Exception (msg : string)
  | ValueError (msg : string)
  | AttributeError (msg : string).

Definition is_not_implemented (e : exn) : bool :=
  match e with NotImplementedError _ => true | _ => false end.

Definition exn_message (e : exn) : string :=
  match e with
  | NotImplementedError m | Exception m | ValueError m | AttributeError m => m
  end.

Inductive result (A : Type) : Type :=
  | Ok (a : A)
  | Raise (e : exn).

Arguments Ok {A} a.
Arguments Raise {A} e.

#[global] Instance result_ret : MRet result := fun A a => Ok a.

#[global] Instance result_bind : MBind result := fun A B k r =>
  match r with
  | Ok a => k a
  | Raise e => Raise e
  end.

#[global] Instance result_fmap : FMap result := fun A B f r =>
  match r with
  | Ok a => Ok (f a)
  | Raise e => Raise e
  end.

(** [[f(c) for c in xs]]: left to right, stopping at the first exception. *)
Definition mapM {A B} (f : A -> result B) : list A -> result (list B) :=
  fix go (l : list A) : result (list B) :=
    match l with
    | [] => Ok []
    | x :: r => y ← f x; ys ← go r; Ok (y :: ys)
    end.

Definition is_ok {A} (r : result A) : bool :=
  match r with Ok _ => true | Raise _ => false end.

(** ** Python string helpers *)

(** ["." in text]. *)
Fixpoint contains_dot (text : string) : bool :=
  match text with
  | EmptyString => false
  | String c r => Ascii.eqb c "." || contains_dot r
  end.

(** [str.lower] on the ASCII letters; the converter only compares the
    lowered text with ["true"] and ["false"], and no character outside
    [A-Z] lowers to one of their letters. *)
Definition lower_ascii (c : ascii) : ascii :=
  let n := N_of_ascii c in
  if ((65 <=? n) && (n <=? 90))%N then ascii_of_N (n + 32) else c.

Fixpoint lower (text : string) : string :=
  match text with
  | EmptyString => EmptyString
  | String c r => String (lower_ascii c) (lower r)
  end.

(** [sep.join(tokens)]. *)
Fixpoint join (sep : string) (tokens : list string) : string :=
  match tokens with
  | [] => ""
  | [t] => t
  | t :: r => t +:+ sep +:+ join sep r
  end.

(** [int(text)] on the sign-and-decimal-digits texts; any other text
    (hexadecimal, [inf], [nan]) is a [ValueError]. *)
Definition digit_of (c : ascii) : option Z :=
  let n := Z.of_N (N_of_ascii c) in
  if (48 <=? n) && (n <=? 57) then Some (n - 48) else None.

Fixpoint digits_value (acc : Z) (s : string) : option Z :=
  match s with
  | EmptyString => Some acc
  | String c r =>
      match digit_of c with
      | Some d => digits_value (10 * acc + d) r
      | None => None
      end
  end.

Definition python_int (text : string) : option Z :=
  match text with
  | EmptyString => None
  | String "-" (String _ _ as ds) => Z.opp <$> digits_value 0 ds
  | String "+" (String _ _ as ds) => digits_value 0 ds
  | String "-" EmptyString | String "+" EmptyString => None
  | _ => digits_value 0 text
  end.

(** [float(text)] succeeds on [sign? digits* . digits* exponent?] with at
    least one mantissa digit; the value itself stays symbolic ([VFloat]). *)
Fixpoint skip_digits (s : string) : nat * string :=
  match s with
  | String c r =>
      match digit_of c with
      | Some _ => let '(n, rest) := skip_digits r in (S n, rest)
      | None => (O, s)
      end
  | EmptyString => (O, s)
  end.

Definition skip_sign (s : string) : string :=
  match s with
  | String "-" r | String "+" r => r
  | _ => s
  end.

Definition exponent_ok (s : string) : bool :=
  match s with
  | EmptyString => true
  | String c r =>
      (Ascii.eqb c "e" || Ascii.eqb c "E") &&
      match skip_digits (skip_sign r) with
      | (S _, EmptyString) => true
      | _ => false
      end
  end.

Definition python_float_ok (text : string) : bool :=
  let '(n1, r1) := skip_digits (skip_sign text) in
  match r1 with
  | String "." r2 =>
      let '(n2, r3) := skip_digits r2 in
      negb (Nat.eqb (n1 + n2) 0) && exponent_ok r3
  | _ => match n1 with S _ => exponent_ok r1 | O => false end
  end.

(** [obj.__class__.__name__]. *)
Definition class_name (e : expr) : string :=
  match e with
  | Constant _ => "Constant"
  | FieldAccess _ => "FieldAccess"
  | FieldAccessChain _ => "FieldAccessChain"
  | Placeholder _ => "Placeholder"
  | BinaryOperation _ _ _ => "BinaryOperation"
  | CompareOperation _ _ _ => "CompareOperation"
  | And _ => "And"
  | Or _ => "Or"
  | Not _ => "Not"
  | Call _ _ => "Call"
  | JoinExpr _ _ _ _ _ _ => "JoinExpr"
  | SelectQuery _ _ _ _ _ _ _ => "SelectQuery"
  end.

(** ** The parse tree

    One type per grammar rule the converter reads, one constructor per
    labelled alternative.  Children the grammar makes mandatory are plain
    fields, optional ones are [option], repeated ones are [list]; a token
    the converter only tests for presence is a [bool].  Productions the
    converter rejects before looking at their children carry none. *)

(** [identifier]: a template string child, or any other token, of which
    only [getText()] is read. *)
Inductive IdentifierContext : Type :=
  | IdentifierToken (text : string)
  | IdentifierTemplateString (text : string).

Definition identifier_getText (ctx : IdentifierContext) : string :=
  match ctx with
  | IdentifierToken text | IdentifierTemplateString text => text
  end.

(** [nestedIdentifier: identifier (DOT identifier)*]. *)
Record NestedIdentifierContext : Type := NestedIdentifier {
  nested_first : IdentifierContext;
  nested_rest : list IdentifierContext
}.

Definition nested_identifier (ctx : NestedIdentifierContext)
  : list IdentifierContext :=
  nested_first ctx :: nested_rest ctx.

(** [tableIdentifier: (databaseIdentifier DOT)? identifier]. *)
Record TableIdentifierContext : Type := TableIdentifier {
  table_databaseIdentifier : option IdentifierContext;
  table_identifier : IdentifierContext
}.

(** [columnIdentifier: (tableIdentifier DOT)? nestedIdentifier]. *)
Record ColumnIdentifierContext : Type := ColumnIdentifier {
  column_tableIdentifier : option TableIdentifierContext;
  column_nestedIdentifier : NestedIdentifierContext
}.

Definition nested_getText (ctx : NestedIdentifierContext) : string :=
  join "." (map identifier_getText (nested_identifier ctx)).

Definition table_getText (ctx : TableIdentifierContext) : string :=
  match table_databaseIdentifier ctx with
  | Some d => identifier_getText d +:+ "." +:+ identifier_getText (table_identifier ctx)
  | None => identifier_getText (table_identifier ctx)
  end.

Definition column_getText (ctx : ColumnIdentifierContext) : string :=
  match column_tableIdentifier ctx with
  | Some t => table_getText t +:+ "." +:+ nested_getText (column_nestedIdentifier ctx)
  | None => nested_getText (column_nestedIdentifier ctx)
  end.

(** [literal: numberLiteral | STRING_LITERAL | NULL_SQL]; the string and
    number alternatives carry the token text. *)
Inductive LiteralContext : Type :=
  | LiteralNull
  | LiteralString (text : string)
  | LiteralNumber (text : string).

Inductive Precedence1Operator : Type := ASTERISK | SLASH | PERCENT.
Inductive Precedence2Operator : Type := PLUS | DASH | CONCAT.
Inductive Precedence3Operator : Type :=
  | EQ_DOUBLE | EQ_SINGLE | NOT_EQ | LE | GE | LT | GT | IN | LIKE | ILIKE.

(** The accessors each [visitJoinOp...] method calls, as presence flags. *)
Inductive JoinOpContext : Type :=
  | JoinOpInner (LEFT ALL ANTI ANY ASOF : bool)
  | JoinOpLeftRight (LEFT RIGHT OUTER SEMI ALL ANTI ANY ASOF : bool)
  | JoinOpFull (LEFT OUTER ALL ANY : bool)
  | JoinOpCross.

(** Column-expression alternatives whose visitor raises at once. *)
Inductive UnsupportedColumnExpr : Type :=
  | TernaryOp | Alias | Extract | Negate | Array | Substring | Cast
  | Interval | WinFunctionTarget | Trim | Tuple | Between | Timestamp
  | TupleAccess | Case | Date | WinFunction.

Inductive ColumnExprContext : Type :=
  | ColumnExprLiteral (literal : LiteralContext)
  | ColumnExprIdentifier (columnIdentifier : ColumnIdentifierContext)
  | ColumnExprPrecedence1 (left : ColumnExprContext)
      (operator : Precedence1Operator) (right : ColumnExprContext)
  | ColumnExprPrecedence2 (left : ColumnExprContext)
      (operator : Precedence2Operator) (right : ColumnExprContext)
  | ColumnExprPrecedence3 (left : ColumnExprContext)
      (operator : Precedence3Operator) (GLOBAL NOT : bool)
      (right : ColumnExprContext)
  | ColumnExprIsNull (columnExpr : ColumnExprContext) (NOT : bool)
  | ColumnExprArrayAccess (columnExpr0 columnExpr1 : ColumnExprContext)
  | ColumnExprParens (columnExpr : ColumnExprContext)
  | ColumnExprAnd (columnExpr0 columnExpr1 : ColumnExprContext)
  | ColumnExprOr (columnExpr0 columnExpr1 : ColumnExprContext)
  | ColumnExprNot (columnExpr : ColumnExprContext)
  | ColumnExprFunction (identifier : IdentifierContext)
      (columnExprList : option (list ColumnsExprContext))
      (columnArgList : option (list ColumnArgExprContext))
  | ColumnExprAsterisk
  | ColumnExprSubquery (selectUnionStmt : SelectUnionStmtContext)
  | ColumnExprUnsupported (production : UnsupportedColumnExpr)
with ColumnsExprContext : Type :=
  | ColumnsExprAsterisk
  | ColumnsExprSubquery (selectUnionStmt : SelectUnionStmtContext)
  | ColumnsExprColumn (columnExpr : ColumnExprContext)
with ColumnArgExprContext : Type :=
  | ColumnArgExprLambda
  | ColumnArgExprColumn (columnExpr : ColumnExprContext)
with SelectUnionStmtContext : Type :=
  | SelectUnionStmt (selectStmtWithParens : list SelectStmtWithParensContext)
with SelectStmtWithParensContext : Type :=
  | SelectStmtWithParensStmt (selectStmt : SelectStmtContext)
  | SelectStmtWithParensUnion (selectUnionStmt : SelectUnionStmtContext)
with SelectStmtContext : Type :=
  | SelectStmt (withClause topClause : bool)
      (columnExprList : option (list ColumnsExprContext))
      (fromClause : option JoinExprContext)
      (arrayJoinClause windowClause : bool)
      (prewhereClause whereClause : option ColumnExprContext)
      (groupByClause : bool)
      (havingClause : option ColumnExprContext)
      (orderByClause limitByClause : bool)
      (limitClause : option LimitExprContext)
      (settingsClause : bool)
with LimitExprContext : Type :=
  | LimitExpr (columnExpr0 : ColumnExprContext)
      (columnExpr1 : option ColumnExprContext)
with JoinExprContext : Type :=
  | JoinExprOp (joinExpr0 : JoinExprContext) (GLOBAL LOCAL : bool)
      (joinOp : option JoinOpContext) (joinExpr1 : JoinExprContext)
      (joinConstraintClause : JoinConstraintClauseContext)
  | JoinExprCrossOp
  | JoinExprTable (tableExpr : TableExprContext) (FINAL sampleClause : bool)
  | JoinExprParens (joinExpr : JoinExprContext)
with JoinConstraintClauseContext : Type :=
  | JoinConstraintClause (USING : bool)
      (columnExprList : list ColumnsExprContext)
with TableExprContext : Type :=
  | TableExprIdentifier (tableIdentifier : TableIdentifierContext)
  | TableExprFunction
  | TableExprSubquery (selectUnionStmt : SelectUnionStmtContext)
  | TableExprAlias (tableExpr : TableExprContext) (alias : string).

(** [selectQuery: selectUnionStmt EOF | selectStmt EOF]. *)
Inductive SelectQueryContext : Type :=
  | SelectQueryUnion (selectUnionStmt : SelectUnionStmtContext)
  | SelectQueryStmt (selectStmt : SelectStmtContext).

(** ** Placeholder substitution *)

(** Modelled from the spec: [replace_placeholders] of
    [posthog.hogql.placeholders], which is not part of the sources at
    hand.  The substitutor walks the AST depth-first; a [Placeholder]
    whose name is a key of the bindings is replaced by the bound
    expression, and one without a binding is left as it is. *)
Fixpoint replace_placeholders (node : expr) (placeholders : gmap string expr)
  : expr :=
  let sub e := replace_placeholders e placeholders in
  match node with
  | Placeholder field =>
      match placeholders !! field with
      | Some bound => bound
      | None => node
      end
  | Constant _ | FieldAccess _ | FieldAccessChain _ => node
  | BinaryOperation l r op => BinaryOperation (sub l) (sub r) op
  | CompareOperation l r op => CompareOperation (sub l) (sub r) op
  | And exprs => And (List.map sub exprs)
  | Or exprs => Or (List.map sub exprs)
  | Not e => Not (sub e)
  | Call name args => Call name (List.map sub args)
  | JoinExpr table table_final alias join_type join_constraint join_expr =>
      JoinExpr (option_map sub table) table_final alias join_type
        (option_map sub join_constraint) (option_map sub join_expr)
  | SelectQuery select select_from where_ prewhere having limit offset =>
      SelectQuery (List.map sub select) (option_map sub select_from)
        (option_map sub where_) (option_map sub prewhere)
        (option_map sub having) limit offset
  end.

(** [if placeholders:] on an [Optional[Dict[str, ast.Expr]]]: [None] and
    the empty dict are both false. *)
Definition truthy (placeholders : option (gmap string expr)) : bool :=
  match placeholders with
  | Some m => negb (Nat.eqb (size m) 0)
  | None => false
  end.

(** ** The converter ([HogQLParseTreeConverter]) *)

Section Converter.

(** [posthog.hogql.parser_utils.parse_string_literal], applied to the
    text of the context it is given; the helper is an external
    collaborator of the converter. *)
Variable parse_string_literal : string -> string.

Definition visitTemplateString (text : string) : expr :=
  Placeholder (parse_string_literal text).

Definition visitIdentifier (ctx : IdentifierContext) : expr :=
  match ctx with
  | IdentifierTemplateString text => visitTemplateString text
  | IdentifierToken text => FieldAccess text
  end.

(** The [field] of the node an identifier converts to. *)
Definition identifier_field (ctx : IdentifierContext) : string :=
  match ctx with
  | IdentifierToken text => text
  | IdentifierTemplateString text => parse_string_literal text
  end.

(** [identifier.field]. *)
Definition expr_field (e : expr) : result string :=
  match e with
  | FieldAccess field | Placeholder field => Ok field
  | _ => Raise (AttributeError "field")
  end.

Definition visitNestedIdentifier (ctx : NestedIdentifierContext)
  : result expr :=
  let identifiers := map visitIdentifier (nested_identifier ctx) in
  match identifiers with
  | [identifier] => Ok identifier
  | _ =>
      chain ← mapM expr_field identifiers;
      Ok (FieldAccessChain (map VStr chain))
  end.

Definition visitTableIdentifier (ctx : TableIdentifierContext) : expr :=
  let identifier := identifier_getText (table_identifier ctx) in
  match table_databaseIdentifier ctx with
  | Some d => FieldAccessChain [VStr (identifier_getText d); VStr identifier]
  | None => FieldAccess identifier
  end.

Definition visitColumnIdentifier (ctx : ColumnIdentifierContext)
  : result expr :=
  let table := visitTableIdentifier <$> column_tableIdentifier ctx in
  nested ← visitNestedIdentifier (column_nestedIdentifier ctx);
  let unsupported :=
    NotImplementedError ("Unsupported property access: " +:+ column_getText ctx) in
  match table with
  | None =>
      match nested with
      | FieldAccess _ =>
          let text := lower (column_getText ctx) in
          if String.eqb text "true" then Ok (Constant (VBool true))
          else if String.eqb text "false" then Ok (Constant (VBool false))
          else Ok nested
      | _ => Ok nested
      end
  | Some table =>
      chain ← match table with
              | FieldAccess field => Ok [VStr field]
              | FieldAccessChain chain => Ok chain
              | _ => Raise unsupported
              end;
      chain ← match nested with
              | FieldAccess field => Ok (chain ++ [VStr field])
              | FieldAccessChain nested_chain => Ok (chain ++ nested_chain)
              | _ => Raise unsupported
              end;
      Ok (FieldAccessChain chain)
  end.

Definition visitNumberLiteral (text : string) : result expr :=
  if contains_dot text then
    if python_float_ok text then Ok (Constant (VFloat text))
    else Raise (ValueError
                  ("could not convert string to float: '" +:+ text +:+ "'"))
  else
    match python_int text with
    | Some z => Ok (Constant (VInt z))
    | None => Raise (ValueError
                     ("invalid literal for int() with base 10: '" +:+ text +:+ "'"))
    end.

Definition visitLiteral (ctx : LiteralContext) : result expr :=
  match ctx with
  | LiteralNull => Ok (Constant VNone)
  | LiteralString text => Ok (Constant (VStr (parse_string_literal text)))
  | LiteralNumber text => visitNumberLiteral text
  end.

(** [tokens.append(name)] under [if flag]. *)
Definition token (flag : bool) (name : string) : list string :=
  if flag then [name] else [].

Definition visitJoinOp (ctx : JoinOpContext) : result string :=
  match ctx with
  | JoinOpInner LEFT ALL ANTI ANY ASOF =>
      Ok (join " " (token LEFT "INNER" ++ token ALL "ALL" ++ token ANTI "ANTI"
                    ++ token ANY "ANY" ++ token ASOF "ASOF"))
  | JoinOpLeftRight LEFT RIGHT OUTER SEMI ALL ANTI ANY ASOF =>
      Ok (join " " (token LEFT "LEFT" ++ token RIGHT "RIGHT"
                    ++ token OUTER "OUTER" ++ token SEMI "SEMI"
                    ++ token ALL "ALL" ++ token ANTI "ANTI"
                    ++ token ANY "ANY" ++ token ASOF "ASOF"))
  | JoinOpFull LEFT OUTER ALL ANY =>
      Ok (join " " (token LEFT "FULL" ++ token OUTER "OUTER"
                    ++ token ALL "ALL" ++ token ANY "ANY"))
  | JoinOpCross => Raise (NotImplementedError "Unsupported node: JoinOpCross")
  end.

Definition precedence1_op (operator : Precedence1Operator)
  : BinaryOperationType.t :=
  match operator with
  | SLASH => BinaryOperationType.Div
  | ASTERISK => BinaryOperationType.Mult
  | PERCENT => BinaryOperationType.Mod
  end.

Definition precedence2_op (operator : Precedence2Operator)
  : result BinaryOperationType.t :=
  match operator with
  | PLUS => Ok BinaryOperationType.Add
  | DASH => Ok BinaryOperationType.Sub
  | CONCAT =>
      Raise (NotImplementedError "Yet unsupported text concat operation: ||")
  end.

Definition precedence3_op (operator : Precedence3Operator)
    (GLOBAL NOT : bool) : result CompareOperationType.t :=
  match operator with
  | EQ_SINGLE | EQ_DOUBLE => Ok CompareOperationType.Eq
  | NOT_EQ => Ok CompareOperationType.NotEq
  | LT => Ok CompareOperationType.Lt
  | LE => Ok CompareOperationType.LtE
  | GT => Ok CompareOperationType.Gt
  | GE => Ok CompareOperationType.GtE
  | LIKE =>
      Ok (if NOT then CompareOperationType.NotLike
          else CompareOperationType.Like)
  | ILIKE =>
      Ok (if NOT then CompareOperationType.NotILike
          else CompareOperationType.ILike)
  | IN =>
      if GLOBAL then Raise (NotImplementedError "Unsupported node: IN GLOBAL")
      else Ok (if NOT then CompareOperationType.NotIn
               else CompareOperationType.In)
  end.

(** The body of [visitColumnExprArrayAccess] after both visits. *)
Definition array_access (object property : expr) : result expr :=
  match property with
  | Constant value =>
      match object with
      | FieldAccess field => Ok (FieldAccessChain [VStr field; value])
      | FieldAccessChain chain => Ok (FieldAccessChain (chain ++ [value]))
      | _ =>
          Raise (NotImplementedError
                   ("Unsupported combination for ColumnExprArrayAccess: "
                    +:+ class_name object +:+ "[" +:+ class_name property +:+ "]"))
      end
  | _ =>
      Raise (NotImplementedError "Array access must be performed with a constant.")
  end.

(** [left.exprs if isinstance(left, ast.And) else [left]]. *)
Definition and_array (e : expr) : list expr :=
  match e with And exprs => exprs | _ => [e] end.

Definition or_array (e : expr) : list expr :=
  match e with Or exprs => exprs | _ => [e] end.

Definition unsupported_name (production : UnsupportedColumnExpr) : string :=
  match production with
  | TernaryOp => "ColumnExprTernaryOp"
  | Alias => "ColumnExprAliasContext"
  | Extract => "ColumnExprExtract"
  | Negate => "ColumnExprNegate"
  | Array => "ColumnExprArray"
  | Substring => "ColumnExprSubstring"
  | Cast => "ColumnExprCast"
  | Interval => "ColumnExprInterval"
  | WinFunctionTarget => "ColumnExprWinFunctionTarget"
  | Trim => "ColumnExprTrim"
  | Tuple => "ColumnExprTuple"
  | Between => "ColumnExprBetween"
  | Timestamp => "ColumnExprTimestamp"
  | TupleAccess => "ColumnExprTupleAccess"
  | Case => "ColumnExprCase"
  | Date => "ColumnExprDate"
  | WinFunction => "ColumnExprWinFunction"
  end.

(** The LIMIT and OFFSET checks of [visitSelectStmt]:
    [isinstance(node, ast.Constant) and isinstance(node.value, int)]. *)
Definition integer_constant (clause : string) (node : expr) : result value :=
  match node with
  | Constant value =>
      if isinstance_int value then Ok value
      else Raise (Exception (clause +:+ " must be an integer"))
  | _ => Raise (Exception (clause +:+ " must be an integer"))
  end.

(** The [raise NotImplementedError] gate of [visitSelectStmt], in the
    order the clauses are tested. *)
Definition unsupported_clauses
    (withClause topClause arrayJoinClause windowClause groupByClause
     orderByClause limitByClause settingsClause : bool) : result unit :=
  if withClause then Raise (NotImplementedError "Unsupported: SelectStmt.withClause()")
  else if topClause then Raise (NotImplementedError "Unsupported: SelectStmt.topClause()")
  else if arrayJoinClause then Raise (NotImplementedError "Unsupported: SelectStmt.arrayJoinClause()")
  else if windowClause then Raise (NotImplementedError "Unsupported: SelectStmt.windowClause()")
  else if groupByClause then Raise (NotImplementedError "Unsupported: SelectStmt.groupByClause()")
  else if orderByClause then Raise (NotImplementedError "Unsupported: SelectStmt.orderByClause()")
  else if limitByClause then Raise (NotImplementedError "Unsupported: SelectStmt.limitByClause()")
  else if settingsClause then Raise (NotImplementedError "Unsupported: SelectStmt.settingsClause()")
  else Ok tt.

(** The tail of [visitJoinExprOp]: the [while] loop walks [join1] to its
    first node whose [join_expr] is unset and the three assignments
    update that node.  The nodes are fresh objects owned by [join1], so
    the in-place update is the functional update of the chain; reading
    [join_expr] off anything but a [JoinExpr] is an [AttributeError]. *)
Fixpoint attach_join (join1 join2 join_constraint : expr)
    (join_type : string) : result expr :=
  match join1 with
  | JoinExpr table table_final alias ty c (Some next) =>
      next' ← attach_join next join2 join_constraint join_type;
      Ok (JoinExpr table table_final alias ty c (Some next'))
  | JoinExpr table table_final alias _ _ None =>
      Ok (JoinExpr table table_final alias (Some join_type)
            (Some join_constraint) (Some join2))
  | _ => Raise (AttributeError "join_expr")
  end.

(** [f"{self.visit(ctx.joinOp())} JOIN"] when the operator is present,
    ["JOIN"] otherwise. *)
Definition join_type_string (joinOp : option JoinOpContext) : result string :=
  match joinOp with
  | Some op => s ← visitJoinOp op; Ok (s +:+ " JOIN")
  | None => Ok "JOIN"
  end.

Fixpoint visitColumnExpr (ctx : ColumnExprContext) : result expr :=
  match ctx with
  | ColumnExprLiteral literal => visitLiteral literal
  | ColumnExprIdentifier columnIdentifier =>
      visitColumnIdentifier columnIdentifier
  | ColumnExprPrecedence1 l operator r =>
      let op := precedence1_op operator in
      left ← visitColumnExpr l;
      right ← visitColumnExpr r;
      Ok (BinaryOperation left right op)
  | ColumnExprPrecedence2 l operator r =>
      op ← precedence2_op operator;
      left ← visitColumnExpr l;
      right ← visitColumnExpr r;
      Ok (BinaryOperation left right op)
  | ColumnExprPrecedence3 l operator GLOBAL NOT r =>
      op ← precedence3_op operator GLOBAL NOT;
      left ← visitColumnExpr l;
      right ← visitColumnExpr r;
      Ok (CompareOperation left right op)
  | ColumnExprIsNull columnExpr NOT =>
      left ← visitColumnExpr columnExpr;
      Ok (CompareOperation left (Constant VNone)
            (if NOT then CompareOperationType.NotEq
             else CompareOperationType.Eq))
  | ColumnExprArrayAccess columnExpr0 columnExpr1 =>
      object ← visitColumnExpr columnExpr0;
      property ← visitColumnExpr columnExpr1;
      array_access object property
  | ColumnExprParens columnExpr => visitColumnExpr columnExpr
  | ColumnExprAnd columnExpr0 columnExpr1 =>
      left ← visitColumnExpr columnExpr0;
      right ← visitColumnExpr columnExpr1;
      Ok (And (and_array left ++ and_array right))
  | ColumnExprOr columnExpr0 columnExpr1 =>
      left ← visitColumnExpr columnExpr0;
      right ← visitColumnExpr columnExpr1;
      Ok (Or (or_array left ++ or_array right))
  | ColumnExprNot columnExpr =>
      e ← visitColumnExpr columnExpr;
      Ok (Not e)
  | ColumnExprFunction identifier columnExprList columnArgList =>
      match columnExprList with
      | Some _ =>
          Raise (NotImplementedError
                   "Functions that return functions are not supported")
      | None =>
          let name := identifier_getText identifier in
          args ← match columnArgList with
                 | Some l => mapM visitColumnArgExpr l
                 | None => Ok []
                 end;
          Ok (Call name args)
      end
  | ColumnExprAsterisk => Ok (FieldAccess "*")
  | ColumnExprSubquery selectUnionStmt => visitSelectUnionStmt selectUnionStmt
  | ColumnExprUnsupported production =>
      Raise (NotImplementedError
               ("Unsupported node: " +:+ unsupported_name production))
  end

with visitColumnsExpr (ctx : ColumnsExprContext) : result expr :=
  match ctx with
  | ColumnsExprAsterisk => Ok (FieldAccess "*")
  | ColumnsExprSubquery selectUnionStmt => visitSelectUnionStmt selectUnionStmt
  | ColumnsExprColumn columnExpr => visitColumnExpr columnExpr
  end

with visitColumnArgExpr (ctx : ColumnArgExprContext) : result expr :=
  match ctx with
  | ColumnArgExprLambda =>
      Raise (NotImplementedError "Unsupported node: ColumnLambdaExpr")
  | ColumnArgExprColumn columnExpr => visitColumnExpr columnExpr
  end

with visitSelectUnionStmt (ctx : SelectUnionStmtContext) : result expr :=
  match ctx with
  | SelectUnionStmt selects =>
      match selects with
      | [select] => visitSelectStmtWithParens select
      | _ => Raise (NotImplementedError "Unsupported: UNION ALL")
      end
  end

with visitSelectStmtWithParens (ctx : SelectStmtWithParensContext)
  : result expr :=
  match ctx with
  | SelectStmtWithParensStmt selectStmt => visitSelectStmt selectStmt
  | SelectStmtWithParensUnion selectUnionStmt =>
      visitSelectUnionStmt selectUnionStmt
  end

with visitSelectStmt (ctx : SelectStmtContext) : result expr :=
  match ctx with
  | SelectStmt withClause topClause columnExprList fromClause
      arrayJoinClause windowClause prewhereClause whereClause
      groupByClause havingClause orderByClause limitByClause
      limitClause settingsClause =>
      select ← match columnExprList with
               | Some l => mapM visitColumnsExpr l
               | None => Ok []
               end;
      select_from ← match fromClause with
                    | Some j => Some <$> visitJoinExpr j
                    | None => Ok None
                    end;
      where_ ← match whereClause with
               | Some c => Some <$> visitColumnExpr c
               | None => Ok None
               end;
      prewhere ← match prewhereClause with
                 | Some c => Some <$> visitColumnExpr c
                 | None => Ok None
                 end;
      having ← match havingClause with
               | Some c => Some <$> visitColumnExpr c
               | None => Ok None
               end;
      limit_offset ←
        match limitClause with
        | Some (LimitExpr columnExpr0 columnExpr1) =>
            limit_node ← visitColumnExpr columnExpr0;
            limit ← integer_constant "LIMIT" limit_node;
            match columnExpr1 with
            | Some c =>
                offset_node ← visitColumnExpr c;
                offset ← integer_constant "OFFSET" offset_node;
                Ok (Some limit, Some offset)
            | None => Ok (Some limit, None)
            end
        | None => Ok (None, None)
        end;
      _ ← unsupported_clauses withClause topClause arrayJoinClause
            windowClause groupByClause orderByClause limitByClause
            settingsClause;
      Ok (SelectQuery select select_from where_ prewhere having
            (fst limit_offset) (snd limit_offset))
  end

with visitJoinExpr (ctx : JoinExprContext) : result expr :=
  match ctx with
  | JoinExprOp joinExpr0 GLOBAL LOCAL joinOp joinExpr1 joinConstraintClause =>
      if GLOBAL then Raise (NotImplementedError "Unsupported: GLOBAL JOIN")
      else if LOCAL then Raise (NotImplementedError "Unsupported: LOCAL JOIN")
      else
        join1 ← visitJoinExpr joinExpr0;
        join2 ← visitJoinExpr joinExpr1;
        join_type ← join_type_string joinOp;
        join_constraint ← visitJoinConstraintClause joinConstraintClause;
        attach_join join1 join2 join_constraint join_type
  | JoinExprCrossOp =>
      Raise (NotImplementedError "Unsupported node: JoinExprCrossOp")
  | JoinExprTable tableExpr FINAL sampleClause =>
      if sampleClause then
        Raise (NotImplementedError
                 "Unsupported: SAMPLE (JoinExprTable.sampleClause)")
      else
        table ← visitTableExpr tableExpr;
        let table_final := if FINAL then Some true else None in
        match table with
        | JoinExpr t _ alias join_type join_constraint join_expr =>
            Ok (JoinExpr t table_final alias join_type join_constraint
                  join_expr)
        | _ => Ok (JoinExpr (Some table) table_final None None None None)
        end
  | JoinExprParens joinExpr => visitJoinExpr joinExpr
  end

with visitJoinConstraintClause (ctx : JoinConstraintClauseContext)
  : result expr :=
  match ctx with
  | JoinConstraintClause USING columnExprList =>
      if USING then Raise (NotImplementedError "Unsupported: JOIN ... USING")
      else
        column_expr_list ← mapM visitColumnsExpr columnExprList;
        match column_expr_list with
        | [e] => Ok e
        | _ =>
            Raise (NotImplementedError
                     "Unsupported: JOIN ... ON with multiple expressions")
        end
  end

with visitTableExpr (ctx : TableExprContext) : result expr :=
  match ctx with
  | TableExprIdentifier tableIdentifier =>
      Ok (visitTableIdentifier tableIdentifier)
  | TableExprFunction =>
      Raise (NotImplementedError "Unsupported node: TableExprFunction")
  | TableExprSubquery selectUnionStmt => visitSelectUnionStmt selectUnionStmt
  | TableExprAlias tableExpr alias =>
      table ← visitTableExpr tableExpr;
      Ok (JoinExpr (Some table) None (Some alias) None None None)
  end.

Definition visitSelectQuery (ctx : SelectQueryContext) : result expr :=
  match ctx with
  | SelectQueryUnion selectUnionStmt => visitSelectUnionStmt selectUnionStmt
  | SelectQueryStmt selectStmt => visitSelectStmt selectStmt
  end.

(** The entry points.  [get_parser(...)] and the grammar rule it is asked
    for belong to the generated ANTLR parser; its parse tree is the
    argument here.  [columnExprWithComment] has the single child
    [columnExpr], which [visitColumnExprWithComment] visits. *)
Definition apply_placeholders (node : expr)
    (placeholders : option (gmap string expr)) : expr :=
  if truthy placeholders then
    replace_placeholders node (default ∅ placeholders)
  else node.

Definition parse_expr (parse_tree : ColumnExprContext)
    (placeholders : option (gmap string expr)) : result expr :=
  node ← visitColumnExpr parse_tree;
  Ok (apply_placeholders node placeholders).

Definition parse_statement (parse_tree : SelectQueryContext)
    (placeholders : option (gmap string expr)) : result expr :=
  node ← visitSelectQuery parse_tree;
  Ok (apply_placeholders node placeholders).

End Converter.

(** ** Shape predicates on the AST *)

(** [p] holds at [e] and at every node below it. *)
Fixpoint all_nodes (p : expr -> bool) (e : expr) : bool :=
  let opt o := match o with Some x => all_nodes p x | None => true end in
  p e &&
  match e with
  | Constant _ | FieldAccess _ | FieldAccessChain _ | Placeholder _ => true
  | BinaryOperation l r _ | CompareOperation l r _ =>
      all_nodes p l && all_nodes p r
  | And exprs | Or exprs => forallb (all_nodes p) exprs
  | Not e' => all_nodes p e'
  | Call _ args => forallb (all_nodes p) args
  | JoinExpr table _ _ _ join_constraint join_expr =>
      opt table && opt join_constraint && opt join_expr
  | SelectQuery select select_from where_ prewhere having _ _ =>
      forallb (all_nodes p) select && opt select_from && opt where_
      && opt prewhere && opt having
  end.

(** An [And] has no [And] among its elements, an [Or] no [Or]. *)
Definition flat_node (e : expr) : bool :=
  match e with
  | And exprs => forallb (fun x => negb (is_And x)) exprs
  | Or exprs => forallb (fun x => negb (is_Or x)) exprs
  | _ => true
  end.

(** A [FieldAccessChain] has at least two segments. *)
Definition chain_node (e : expr) : bool :=
  match e with
  | FieldAccessChain chain => (2 <=? length chain)%nat
  | _ => true
  end.

(** Every segment of a [FieldAccessChain] is a string. *)
Definition string_chain_node (e : expr) : bool :=
  match e with
  | FieldAccessChain chain => forallb is_str chain
  | _ => true
  end.

(** The node-local shape the converter maintains: flat [And]/[Or] with at
    least two elements, and chains of at least two segments. *)
Definition node_ok (e : expr) : bool :=
  flat_node e && chain_node e &&
  match e with
  | And exprs | Or exprs => (2 <=? length exprs)%nat
  | _ => true
  end.

Definition well_formed (e : expr) : bool := all_nodes node_ok e.

Definition well_formed_opt (o : option expr) : bool :=
  match o with Some e => well_formed e | None => true end.

(** ** Join chains as lists of steps *)

(** The fields of one [JoinExpr] node other than its forward link. *)
Record join_step : Type := JoinStep {
  step_table : option expr;
  step_table_final : option bool;
  step_alias : option string;
  step_join_type : option string;
  step_join_constraint : option expr
}.

(** The nodes reached from [j] along [join_expr], head first. *)
Fixpoint join_steps (j : expr) : list join_step :=
  match j with
  | JoinExpr table table_final alias join_type join_constraint join_expr =>
      JoinStep table table_final alias join_type join_constraint
      :: match join_expr with
         | Some next => join_steps next
         | None => []
         end
  | _ => []
  end.

(** [j] and every node reached along [join_expr] is a [JoinExpr]. *)
Fixpoint is_join_chain (j : expr) : bool :=
  match j with
  | JoinExpr _ _ _ _ _ (Some next) => is_join_chain next
  | JoinExpr _ _ _ _ _ None => true
  | _ => false
  end.

Definition with_join (s : join_step) (join_type : string)
    (join_constraint : expr) : join_step :=
  JoinStep (step_table s) (step_table_final s) (step_alias s)
    (Some join_type) (Some join_constraint).

(** ** Parse trees of the queries used below *)

(** An unqualified single-segment column, [name]. *)
Definition column (text : string) : ColumnExprContext :=
  ColumnExprIdentifier
    (ColumnIdentifier None (NestedIdentifier (IdentifierToken text) [])).

(** [a.b]: the grammar can read it as table [a] with column [b]
    ([by_table = true]) or as the nested identifier [a.b]. *)
Definition dotted (by_table : bool) (a b : string) : ColumnExprContext :=
  ColumnExprIdentifier
    (if by_table then
       ColumnIdentifier (Some (TableIdentifier None (IdentifierToken a)))
         (NestedIdentifier (IdentifierToken b) [])
     else
       ColumnIdentifier None
         (NestedIdentifier (IdentifierToken a) [IdentifierToken b])).

Definition number (text : string) : ColumnExprContext :=
  ColumnExprLiteral (LiteralNumber text).

(** [{name}] where an expression is expected. *)
Definition template (text : string) : ColumnExprContext :=
  ColumnExprIdentifier
    (ColumnIdentifier None (NestedIdentifier (IdentifierTemplateString text) [])).

Definition table (name : string) : JoinExprContext :=
  JoinExprTable
    (TableExprIdentifier (TableIdentifier None (IdentifierToken name)))
    false false.

(** [ON l = r]. *)
Definition on_eq (l r : ColumnExprContext) : JoinConstraintClauseContext :=
  JoinConstraintClause false
    [ColumnsExprColumn (ColumnExprPrecedence3 l EQ_SINGLE false false r)].

(** A [selectStmt] with a projection, an optional FROM and an optional
    LIMIT, and nothing else. *)
Definition select_stmt (columns : list ColumnsExprContext)
    (from : option JoinExprContext) (limit : option LimitExprContext)
  : SelectStmtContext :=
  SelectStmt false false (Some columns) from false false None None false None
    false false limit false.

(** The [selectQuery] around a single [selectStmt]. *)
Definition select_query (stmt : SelectStmtContext) : SelectQueryContext :=
  SelectQueryUnion (SelectUnionStmt [SelectStmtWithParensStmt stmt]).

(** [SELECT * FROM a JOIN b ON a.id = b.id JOIN c ON b.id = c.id]. *)
Definition three_way_join (by_table : bool) : JoinExprContext :=
  JoinExprOp
    (JoinExprOp (table "a") false false None (table "b")
       (on_eq (dotted by_table "a" "id") (dotted by_table "b" "id")))
    false false None (table "c")
    (on_eq (dotted by_table "b" "id") (dotted by_table "c" "id")).


(** [SELECT 1 LIMIT limit] and [SELECT 1 LIMIT limit OFFSET offset]. *)
Definition select_1_limit (limit : ColumnExprContext)
    (offset : option ColumnExprContext) : SelectQueryContext :=
  select_query
    (select_stmt [ColumnsExprColumn (number "1")] None
       (Some (LimitExpr limit offset))).

(** [SELECT 1 GROUP BY 1], with an optional LIMIT; the converter never
    looks below the GROUP BY clause. *)
Definition select_1_group_by (limit : option LimitExprContext)
  : SelectQueryContext :=
  select_query
    (SelectStmt false false (Some [ColumnsExprColumn (number "1")]) None
       false false None None true None false false limit false).

(** [1 + 2 * 3] as the grammar's precedence tiers nest it. *)
Definition one_plus_two_times_three : ColumnExprContext :=
  ColumnExprPrecedence2 (number "1") PLUS
    (ColumnExprPrecedence1 (number "2") ASTERISK (number "3")).

(** [1 + 2 * 3 < 4]. *)
Definition sum_less_than_four : ColumnExprContext :=
  ColumnExprPrecedence3 one_plus_two_times_three LT false false (number "4").



(** The chain segments a table identifier contributes. *)
Definition table_segments (ctx : TableIdentifierContext) : list value :=
  match table_databaseIdentifier ctx with
  | Some d =>
      [VStr (identifier_getText d); VStr (identifier_getText (table_identifier ctx))]
  | None => [VStr (identifier_getText (table_identifier ctx))]
  end.

(** [SELECT 1] with the given LIMIT and OFFSET values. *)
Definition select_1_result (limit offset : option value) : expr :=
  SelectQuery [Constant (VInt 1)] None None None None limit offset.

(** Modelled from the spec: [parse_string_literal] of
    [posthog.hogql.parser_utils], which is not part of the sources at
    hand.  The spec's examples ([{foo}] gives the placeholder name [foo])
    show it dropping the delimiters around the text; the escape handling
    is left out. *)
Definition strip_delimiters (text : string) : string :=
  match text with
  | String _ r => substring 0 (String.length r - 1) r
  | EmptyString => EmptyString
  end.

(** ** Further shapes of parse trees and results *)

Definition is_attribute_error (e : exn) : bool :=
  match e with AttributeError _ => true | _ => false end.

(** The exceptions the converter raises on purpose, and the [ValueError]
    of [int()] and [float()] on a number literal. *)
Definition converter_error (e : exn) : bool :=
  match e with
  | NotImplementedError _ | ValueError _ => true
  | Exception msg =>
      String.eqb msg "LIMIT must be an integer"
      || String.eqb msg "OFFSET must be an integer"
  | AttributeError _ => false
  end.

(** An [And] or [Or] has at least two elements. *)
Definition wide_node (e : expr) : bool :=
  match e with
  | And exprs | Or exprs => (2 <=? length exprs)%nat
  | _ => true
  end.

(** [limit] and [offset] of a [SelectQuery] pass the integer check, and
    [offset] is set only together with [limit]. *)
Definition limits_ok (e : expr) : bool :=
  match e with
  | SelectQuery _ _ _ _ _ limit offset =>
      from_option isinstance_int true limit
      && from_option isinstance_int true offset
      && (bool_decide (is_Some limit) || negb (bool_decide (is_Some offset)))
  | _ => false
  end.

(** Every step but the last carries a join type and a constraint, and the
    last carries neither. *)
Fixpoint chain_typed (steps : list join_step) : bool :=
  match steps with
  | [] => false
  | [s] =>
      negb (bool_decide (is_Some (step_join_type s)))
      && negb (bool_decide (is_Some (step_join_constraint s)))
  | s :: rest =>
      bool_decide (is_Some (step_join_type s))
      && bool_decide (is_Some (step_join_constraint s))
      && chain_typed rest
  end.

(** What identifies a step's table: the fields a join never rewrites. *)
Definition step_key (s : join_step)
  : option expr * option bool * option string :=
  (step_table s, step_table_final s, step_alias s).

(** The table productions of a join tree, left to right. *)
Fixpoint join_leaves (ctx : JoinExprContext) : list JoinExprContext :=
  match ctx with
  | JoinExprOp joinExpr0 _ _ _ joinExpr1 _ =>
      join_leaves joinExpr0 ++ join_leaves joinExpr1
  | JoinExprParens joinExpr => join_leaves joinExpr
  | JoinExprTable _ _ _ | JoinExprCrossOp => [ctx]
  end.

(** [child] is an operand of [parent], or an argument of the call
    [parent]. *)
Inductive operand (child : ColumnExprContext) : ColumnExprContext -> Prop :=
  | operand_p1_l operator r :
      operand child (ColumnExprPrecedence1 child operator r)
  | operand_p1_r operator l :
      operand child (ColumnExprPrecedence1 l operator child)
  | operand_p2_l operator r :
      operand child (ColumnExprPrecedence2 child operator r)
  | operand_p2_r operator l :
      operand child (ColumnExprPrecedence2 l operator child)
  | operand_p3_l operator GLOBAL NOT r :
      operand child (ColumnExprPrecedence3 child operator GLOBAL NOT r)
  | operand_p3_r operator GLOBAL NOT l :
      operand child (ColumnExprPrecedence3 l operator GLOBAL NOT child)
  | operand_is_null NOT : operand child (ColumnExprIsNull child NOT)
  | operand_array_l r : operand child (ColumnExprArrayAccess child r)
  | operand_array_r l : operand child (ColumnExprArrayAccess l child)
  | operand_parens : operand child (ColumnExprParens child)
  | operand_and_l r : operand child (ColumnExprAnd child r)
  | operand_and_r l : operand child (ColumnExprAnd l child)
  | operand_or_l r : operand child (ColumnExprOr child r)
  | operand_or_r l : operand child (ColumnExprOr l child)
  | operand_not : operand child (ColumnExprNot child)
  | operand_arg identifier columnExprList args :
      List.In (ColumnArgExprColumn child) args ->
      operand child (ColumnExprFunction identifier columnExprList (Some args)).

(** [inner] occurs in [outer] at any depth of operands and arguments. *)
Inductive occurs_in (inner : ColumnExprContext) : ColumnExprContext -> Prop :=
  | occurs_here : occurs_in inner inner
  | occurs_below middle outer :
      occurs_in inner middle -> operand middle outer -> occurs_in inner outer.

(** ** Operator precedence *)

(** The operators of the three precedence tiers, as their tokens. *)
Inductive arith_operator : Type :=
  | Multiplicative (operator : Precedence1Operator)
  | Additive (operator : Precedence2Operator)
  | Comparison (operator : Precedence3Operator) (NOT : bool).

(** Modelled from the spec: the parse tree the grammar ([HogQLParser],
    which is not part of the sources at hand) gives an operand followed by
    operator-operand pairs.  The grammar encodes three precedence tiers,
    multiplicative binding tighter than additive binding tighter than
    comparison, and the tree shapes are those of precedence climbing; the
    operators of one tier are grouped to the left.  [comparison] and
    [additive] hold the finished left operand and the pending operator of
    their tier, [term] the multiplicative term being read. *)
Definition close_additive
    (additive : option (ColumnExprContext * Precedence2Operator))
    (term : ColumnExprContext) : ColumnExprContext :=
  match additive with
  | Some (l, operator) => ColumnExprPrecedence2 l operator term
  | None => term
  end.

Definition close_comparison
    (comparison : option (ColumnExprContext * (Precedence3Operator * bool)))
    (sum : ColumnExprContext) : ColumnExprContext :=
  match comparison with
  | Some (l, (operator, NOT)) => ColumnExprPrecedence3 l operator false NOT sum
  | None => sum
  end.

Fixpoint parse_tiers
    (comparison : option (ColumnExprContext * (Precedence3Operator * bool)))
    (additive : option (ColumnExprContext * Precedence2Operator))
    (term : ColumnExprContext)
    (rest : list (arith_operator * ColumnExprContext)) : ColumnExprContext :=
  match rest with
  | [] => close_comparison comparison (close_additive additive term)
  | (Multiplicative operator, operand) :: rest =>
      parse_tiers comparison additive
        (ColumnExprPrecedence1 term operator operand) rest
  | (Additive operator, operand) :: rest =>
      parse_tiers comparison
        (Some (close_additive additive term, operator)) operand rest
  | (Comparison operator NOT, operand) :: rest =>
      parse_tiers
        (Some (close_comparison comparison (close_additive additive term),
               (operator, NOT)))
        None operand rest
  end.

Definition parse_arithmetic (first : ColumnExprContext)
    (rest : list (arith_operator * ColumnExprContext)) : ColumnExprContext :=
  parse_tiers None None first rest.

(** The operators of the AST, over both operation classes. *)
Inductive arith_op : Type :=
  | BinaryOp (op : BinaryOperationType.t)
  | CompareOp (op : CompareOperationType.t).

(** The operator a token converts to, through the converter's own
    mappings; [None] where the converter rejects the token. *)
Definition operator_op (operator : arith_operator) : option arith_op :=
  match operator with
  | Multiplicative o => Some (BinaryOp (precedence1_op o))
  | Additive o =>
      match precedence2_op o with
      | Ok op => Some (BinaryOp op)
      | Raise _ => None
      end
  | Comparison o NOT =>
      match precedence3_op o false NOT with
      | Ok op => Some (CompareOp op)
      | Raise _ => None
      end
  end.

(** 1 for multiplicative, 2 for additive, 3 for comparison. *)
Definition op_tier (op : arith_op) : nat :=
  match op with
  | BinaryOp (BinaryOperationType.Mult | BinaryOperationType.Div
              | BinaryOperationType.Mod) => 1
  | BinaryOp (BinaryOperationType.Add | BinaryOperationType.Sub) => 2
  | CompareOp _ => 3
  end.

(** A way of bracketing operands and operators into operations. *)
Inductive bracketing : Type :=
  | Operand (e : expr)
  | Operation (op : arith_op) (l r : bracketing).

Fixpoint bracketing_expr (b : bracketing) : expr :=
  match b with
  | Operand e => e
  | Operation (BinaryOp op) l r =>
      BinaryOperation (bracketing_expr l) (bracketing_expr r) op
  | Operation (CompareOp op) l r =>
      CompareOperation (bracketing_expr l) (bracketing_expr r) op
  end.

(** The operands and operators of a bracketing, left to right. *)
Fixpoint yield (b : bracketing) : expr * list (arith_op * expr) :=
  match b with
  | Operand e => (e, [])
  | Operation op l r =>
      (fst (yield l), snd (yield l) ++ (op, fst (yield r)) :: snd (yield r))
  end.

Definition tier (b : bracketing) : nat :=
  match b with
  | Operand _ => 0
  | Operation op _ _ => op_tier op
  end.

(** No operation has, as an operand, an operation of a looser tier. *)
Fixpoint precedence_respected (b : bracketing) : bool :=
  match b with
  | Operand _ => true
  | Operation op l r =>
      (tier l <=? op_tier op)%nat && (tier r <=? op_tier op)%nat
      && precedence_respected l && precedence_respected r
  end.

(** The bracketing that [parse_tiers] builds, on converted operands. *)
Definition bracket_outer (pending : option (bracketing * arith_op))
    (inner : bracketing) : bracketing :=
  match pending with
  | Some (l, op) => Operation op l inner
  | None => inner
  end.

Fixpoint bracket_tiers (comparison additive : option (bracketing * arith_op))
    (term : bracketing) (rest : list (arith_op * expr)) : bracketing :=
  match rest with
  | [] => bracket_outer comparison (bracket_outer additive term)
  | (op, operand) :: rest =>
      match op_tier op with
      | 1%nat =>
          bracket_tiers comparison additive
            (Operation op term (Operand operand)) rest
      | 2%nat =>
          bracket_tiers comparison (Some (bracket_outer additive term, op))
            (Operand operand) rest
      | _ =>
          bracket_tiers
            (Some (bracket_outer comparison (bracket_outer additive term), op))
            None (Operand operand) rest
      end
  end.

(** [ctx] converts to the expression of the bracketing [b]. *)
Definition converts (psl : string -> string) (ctx : ColumnExprContext)
    (b : bracketing) : Prop :=
  visitColumnExpr psl ctx = Ok (bracketing_expr b).

(** The pending operand and operator of [parse_tiers] convert to those of
    [bracket_tiers]. *)
Definition additive_converts (psl : string -> string)
    (additive : option (ColumnExprContext * Precedence2Operator))
    (additive' : option (bracketing * arith_op)) : Prop :=
  match additive, additive' with
  | None, None => True
  | Some (l, operator), Some (l', op') =>
      converts psl l l' /\ operator_op (Additive operator) = Some op'
  | _, _ => False
  end.

Definition comparison_converts (psl : string -> string)
    (comparison : option (ColumnExprContext * (Precedence3Operator * bool)))
    (comparison' : option (bracketing * arith_op)) : Prop :=
  match comparison, comparison' with
  | None, None => True
  | Some (l, (operator, NOT)), Some (l', op') =>
      converts psl l l' /\ operator_op (Comparison operator NOT) = Some op'
  | _, _ => False
  end.

(** A pending operand of tier at most [n] with its operator of tier [n]. *)
Definition pending_ok (n : nat) (pending : option (bracketing * arith_op))
  : Prop :=
  match pending with
  | Some (l, op) =>
      precedence_respected l = true /\ (tier l <= n)%nat /\ op_tier op = n
  | None => True
  end.

(** ** Placeholders left after a substitution *)

(** [n] is not a placeholder that [placeholders] binds. *)
Definition unbound_node (placeholders : gmap string expr) (n : expr) : bool :=
  match n with
  | Placeholder field =>
      match placeholders !! field with Some _ => false | None => true end
  | _ => true
  end.

(** * Proofs *)

(** ** The exception monad *)

Lemma bind_Ok {A B} (r : result A) (k : A -> result B) (b : B) :
  r ≫= k = Ok b -> exists a, r = Ok a /\ k a = Ok b.
Proof. destruct r as [a|e]; simpl; [eauto | discriminate]. Qed.

Lemma fmap_Ok {A B} (f : A -> B) (r : result A) (b : B) :
  f <$> r = Ok b -> exists a, r = Ok a /\ b = f a.
Proof. destruct r as [a|e]; simpl; intros H; [injection H as <-; eauto | discriminate]. Qed.

Lemma mapM_forallb {A B} (f : A -> result B) (p : B -> bool) (l : list A) :
  Forall (fun x => forall y, f x = Ok y -> p y = true) l ->
  forall ys, mapM f l = Ok ys -> forallb p ys = true.
Proof.
  induction 1 as [|x l Hx _ IH]; simpl; intros ys H.
  - injection H as <-. reflexivity.
  - apply bind_Ok in H as (y & Hy & H).
    apply bind_Ok in H as (ys' & Hys & H).
    injection H as <-. simpl. rewrite (Hx _ Hy), (IH _ Hys). reflexivity.
Qed.

Lemma mapM_length {A B} (f : A -> result B) (l : list A) (ys : list B) :
  mapM f l = Ok ys -> length ys = length l.
Proof.
  revert ys. induction l as [|x l IH]; simpl; intros ys H.
  - injection H as <-. reflexivity.
  - apply bind_Ok in H as (y & Hy & H).
    apply bind_Ok in H as (ys' & Hys & H).
    injection H as <-. simpl. f_equal. auto.
Qed.

(** Peel the binds of a successful computation, one equation per step. *)
Ltac peel H :=
  repeat match type of H with
    | (_ ≫= _) = Ok _ =>
        let a := fresh "a" in
        let E := fresh "E" in
        apply bind_Ok in H as (a & E & H)
    end.

(** ** Well-formedness of converted nodes *)

Section WellFormed.
Variable psl : string -> string.

Lemma visitIdentifier_field (ctx : IdentifierContext) :
  exists field, expr_field (visitIdentifier psl ctx) = Ok field.
Proof. destruct ctx; simpl; eauto. Qed.

Lemma mapM_expr_field (l : list IdentifierContext) :
  exists chain,
    mapM expr_field (map (visitIdentifier psl) l) = Ok chain
    /\ length chain = length l.
Proof.
  induction l as [|x l (chain & IH & Hlen)]; simpl.
  - exists []. auto.
  - destruct (visitIdentifier_field x) as (field & ->). simpl.
    rewrite IH. simpl. exists (field :: chain). simpl. auto.
Qed.

(** A nested identifier is a [FieldAccess] or a [Placeholder] when it has
    one segment and a chain of as many string segments otherwise. *)
Lemma visitNestedIdentifier_cases (ctx : NestedIdentifierContext) :
  (nested_rest ctx = []
   /\ visitNestedIdentifier psl ctx = Ok (visitIdentifier psl (nested_first ctx)))
  \/ (exists chain,
        visitNestedIdentifier psl ctx = Ok (FieldAccessChain (map VStr chain))
        /\ length chain = S (length (nested_rest ctx))
        /\ (2 <= length chain)%nat).
Proof.
  destruct ctx as [first rest]. unfold visitNestedIdentifier, nested_identifier.
  cbn [nested_first nested_rest].
  destruct rest as [|second rest]; [left; auto|right].
  destruct (mapM_expr_field (first :: second :: rest)) as (chain & E & Hlen).
  cbn [map] in *. rewrite E. exists chain. simpl in Hlen.
  repeat split; auto; lia.
Qed.

Lemma visitIdentifier_well_formed (ctx : IdentifierContext) :
  well_formed (visitIdentifier psl ctx) = true.
Proof. destruct ctx; reflexivity. Qed.

Lemma string_segments_length (chain : list string) :
  length (map VStr chain) = length chain.
Proof. apply length_map. Qed.

Lemma chain_well_formed (chain : list value) :
  (2 <= length chain)%nat -> well_formed (FieldAccessChain chain) = true.
Proof.
  intros H. apply Nat.leb_le in H.
  unfold well_formed. cbn [all_nodes]. unfold node_ok.
  cbn [flat_node chain_node andb]. rewrite H. reflexivity.
Qed.

Lemma well_formed_chain_length (chain : list value) :
  well_formed (FieldAccessChain chain) = true -> (2 <= length chain)%nat.
Proof.
  unfold well_formed. cbn [all_nodes]. unfold node_ok.
  cbn [flat_node chain_node andb]. rewrite !andb_true_r.
  apply Nat.leb_le.
Qed.

Lemma visitNestedIdentifier_well_formed ctx a :
  visitNestedIdentifier psl ctx = Ok a -> well_formed a = true.
Proof.
  destruct (visitNestedIdentifier_cases ctx) as [(_ & ->)|(chain & -> & _ & Hlen)];
    intros [= <-].
  - apply visitIdentifier_well_formed.
  - apply chain_well_formed. rewrite string_segments_length. lia.
Qed.

Lemma visitTableIdentifier_well_formed ctx :
  well_formed (visitTableIdentifier ctx) = true.
Proof.
  destruct ctx as [[d|] i]; reflexivity.
Qed.

Lemma visitColumnIdentifier_well_formed ctx a :
  visitColumnIdentifier psl ctx = Ok a -> well_formed a = true.
Proof.
  unfold visitColumnIdentifier. intros H.
  apply bind_Ok in H as (nested & E & H).
  pose proof (visitNestedIdentifier_well_formed _ _ E) as Hn.
  destruct (column_tableIdentifier ctx) as [t|]; simpl in H.
  - pose proof (visitTableIdentifier_well_formed t) as Ht.
    apply bind_Ok in H as (c1 & E1 & H).
    apply bind_Ok in H as (c2 & E2 & H).
    injection H as <-.
    apply chain_well_formed.
    assert (1 <= length c1)%nat as H1.
    { destruct (visitTableIdentifier t); try discriminate;
        injection E1 as <-; simpl; [lia|].
      apply well_formed_chain_length in Ht. lia. }
    destruct nested; try discriminate; injection E2 as <-;
      rewrite length_app; simpl; [lia|].
    apply well_formed_chain_length in Hn. lia.
  - destruct nested; try (injection H as <-; assumption).
    repeat match type of H with context [if ?b then _ else _] => destruct b end;
      injection H as <-; auto.
Qed.

Lemma visitLiteral_well_formed ctx a :
  visitLiteral psl ctx = Ok a -> well_formed a = true.
Proof.
  destruct ctx; simpl; try (intros [= <-]; reflexivity).
  unfold visitNumberLiteral.
  destruct (contains_dot text); [destruct (python_float_ok text)|destruct (python_int text)];
    intros [= <-]; reflexivity.
Qed.

Lemma well_formed_And exprs :
  well_formed (And exprs)
  = forallb (fun x => negb (is_And x)) exprs && (2 <=? length exprs)%nat
    && forallb well_formed exprs.
Proof.
  unfold well_formed. cbn [all_nodes]. unfold node_ok.
  cbn [flat_node chain_node]. rewrite andb_true_r. reflexivity.
Qed.

Lemma well_formed_Or exprs :
  well_formed (Or exprs)
  = forallb (fun x => negb (is_Or x)) exprs && (2 <=? length exprs)%nat
    && forallb well_formed exprs.
Proof.
  unfold well_formed. cbn [all_nodes]. unfold node_ok.
  cbn [flat_node chain_node]. rewrite andb_true_r. reflexivity.
Qed.

Lemma well_formed_JoinExpr table table_final alias ty c next :
  well_formed (JoinExpr table table_final alias ty c next)
  = well_formed_opt table && well_formed_opt c && well_formed_opt next.
Proof. reflexivity. Qed.

Lemma well_formed_SelectQuery select select_from where_ prewhere having
    limit offset :
  well_formed (SelectQuery select select_from where_ prewhere having
                 limit offset)
  = forallb well_formed select && well_formed_opt select_from
    && well_formed_opt where_ && well_formed_opt prewhere
    && well_formed_opt having.
Proof. reflexivity. Qed.

Lemma and_array_well_formed e :
  well_formed e = true ->
  forallb (fun x => negb (is_And x)) (and_array e) = true
  /\ forallb well_formed (and_array e) = true
  /\ (1 <= length (and_array e))%nat.
Proof.
  intros H.
  destruct e;
    try (cbn [and_array forallb is_And negb andb length]; rewrite H;
         repeat split; auto; lia).
  rewrite well_formed_And in H.
  apply andb_prop in H as [H H3]. apply andb_prop in H as [H1 H2].
  apply Nat.leb_le in H2. simpl. repeat split; auto; lia.
Qed.

Lemma or_array_well_formed e :
  well_formed e = true ->
  forallb (fun x => negb (is_Or x)) (or_array e) = true
  /\ forallb well_formed (or_array e) = true
  /\ (1 <= length (or_array e))%nat.
Proof.
  intros H.
  destruct e;
    try (cbn [or_array forallb is_Or negb andb length]; rewrite H;
         repeat split; auto; lia).
  rewrite well_formed_Or in H.
  apply andb_prop in H as [H H3]. apply andb_prop in H as [H1 H2].
  apply Nat.leb_le in H2. simpl. repeat split; auto; lia.
Qed.

Lemma And_well_formed l r :
  well_formed l = true -> well_formed r = true ->
  well_formed (And (and_array l ++ and_array r)) = true.
Proof.
  intros Hl Hr.
  destruct (and_array_well_formed _ Hl) as (L1 & L2 & L3).
  destruct (and_array_well_formed _ Hr) as (R1 & R2 & R3).
  rewrite well_formed_And, !forallb_app, L1, L2, R1, R2.
  cbn [andb]. rewrite andb_true_r. apply Nat.leb_le.
  rewrite length_app. lia.
Qed.

Lemma Or_well_formed l r :
  well_formed l = true -> well_formed r = true ->
  well_formed (Or (or_array l ++ or_array r)) = true.
Proof.
  intros Hl Hr.
  destruct (or_array_well_formed _ Hl) as (L1 & L2 & L3).
  destruct (or_array_well_formed _ Hr) as (R1 & R2 & R3).
  rewrite well_formed_Or, !forallb_app, L1, L2, R1, R2.
  cbn [andb]. rewrite andb_true_r. apply Nat.leb_le.
  rewrite length_app. lia.
Qed.

Lemma array_access_well_formed object property a :
  well_formed object = true ->
  array_access object property = Ok a -> well_formed a = true.
Proof.
  intros Ho H. unfold array_access in H.
  destruct property; try discriminate.
  destruct object; try discriminate; injection H as <-;
    apply chain_well_formed; simpl; [lia|].
  apply well_formed_chain_length in Ho. rewrite length_app. simpl. lia.
Qed.

Lemma attach_join_well_formed join2 join_constraint join_type :
  well_formed join2 = true -> well_formed join_constraint = true ->
  forall join1 a,
    well_formed join1 = true ->
    attach_join join1 join2 join_constraint join_type = Ok a ->
    well_formed a = true.
Proof.
  intros H2 Hc. fix IH 1. intros join1 a H1 H.
  destruct join1; try discriminate.
  rewrite well_formed_JoinExpr in H1.
  apply andb_prop in H1 as [H1 Hn]. apply andb_prop in H1 as [Ht Hcc].
  destruct join_expr as [next|]; simpl in H.
  - apply bind_Ok in H as (next' & E & H). injection H as <-.
    rewrite well_formed_JoinExpr. simpl in Hn.
    rewrite Ht, Hcc. simpl. apply (IH next next' Hn E).
  - injection H as <-. rewrite well_formed_JoinExpr. simpl.
    rewrite Ht, Hc, H2. reflexivity.
Qed.

Lemma fmap_Some_well_formed (r : result expr) (o : option expr) :
  (forall a, r = Ok a -> well_formed a = true) ->
  Some <$> r = Ok o -> well_formed_opt o = true.
Proof.
  intros Hr H. apply fmap_Ok in H as (a & E & ->). simpl. auto.
Qed.

(** Every node of every successful conversion is well formed; by mutual
    structural induction on the parse tree. *)
Lemma visitColumnExpr_well_formed (ctx : ColumnExprContext) :
  forall a, visitColumnExpr psl ctx = Ok a -> well_formed a = true
with visitColumnsExpr_well_formed (ctx : ColumnsExprContext) :
  forall a, visitColumnsExpr psl ctx = Ok a -> well_formed a = true
with visitColumnArgExpr_well_formed (ctx : ColumnArgExprContext) :
  forall a, visitColumnArgExpr psl ctx = Ok a -> well_formed a = true
with visitSelectUnionStmt_well_formed (ctx : SelectUnionStmtContext) :
  forall a, visitSelectUnionStmt psl ctx = Ok a -> well_formed a = true
with visitSelectStmtWithParens_well_formed (ctx : SelectStmtWithParensContext) :
  forall a, visitSelectStmtWithParens psl ctx = Ok a -> well_formed a = true
with visitSelectStmt_well_formed (ctx : SelectStmtContext) :
  forall a, visitSelectStmt psl ctx = Ok a -> well_formed a = true
with visitJoinExpr_well_formed (ctx : JoinExprContext) :
  forall a, visitJoinExpr psl ctx = Ok a -> well_formed a = true
with visitJoinConstraintClause_well_formed (ctx : JoinConstraintClauseContext) :
  forall a, visitJoinConstraintClause psl ctx = Ok a -> well_formed a = true
with visitTableExpr_well_formed (ctx : TableExprContext) :
  forall a, visitTableExpr psl ctx = Ok a -> well_formed a = true.
Proof.
  - (* columnExpr *)
    destruct ctx; intros a H; cbn [visitColumnExpr] in H.
    + exact (visitLiteral_well_formed _ _ H).
    + exact (visitColumnIdentifier_well_formed _ _ H).
    + peel H. injection H as <-.
      apply visitColumnExpr_well_formed in E, E0.
      unfold well_formed in *. simpl. rewrite E, E0. reflexivity.
    + peel H. injection H as <-.
      apply visitColumnExpr_well_formed in E0, E1.
      unfold well_formed in *. simpl. rewrite E0, E1. reflexivity.
    + peel H. injection H as <-.
      apply visitColumnExpr_well_formed in E0, E1.
      unfold well_formed in *. simpl. rewrite E0, E1. reflexivity.
    + peel H. injection H as <-.
      apply visitColumnExpr_well_formed in E.
      unfold well_formed in *. simpl. rewrite E. reflexivity.
    + peel H. apply visitColumnExpr_well_formed in E.
      exact (array_access_well_formed _ _ _ E H).
    + exact (visitColumnExpr_well_formed _ _ H).
    + peel H. injection H as <-.
      apply visitColumnExpr_well_formed in E, E0.
      apply And_well_formed; assumption.
    + peel H. injection H as <-.
      apply visitColumnExpr_well_formed in E, E0.
      apply Or_well_formed; assumption.
    + peel H. injection H as <-.
      apply visitColumnExpr_well_formed in E.
      unfold well_formed in *. simpl. exact E.
    + destruct columnExprList; [discriminate|].
      peel H. injection H as <-.
      assert (forallb well_formed a0 = true) as Ha; [|exact Ha].
      destruct columnArgList as [l|]; [|injection E as <-; reflexivity].
      refine (mapM_forallb _ _ l _ _ E). clear E.
      induction l as [|x l IH];
        [constructor
        |constructor; [exact (visitColumnArgExpr_well_formed x) | exact IH]].
    + injection H as <-. reflexivity.
    + exact (visitSelectUnionStmt_well_formed _ _ H).
    + discriminate.
  - (* columnsExpr *)
    destruct ctx; intros a H; cbn [visitColumnsExpr] in H.
    + injection H as <-. reflexivity.
    + exact (visitSelectUnionStmt_well_formed _ _ H).
    + exact (visitColumnExpr_well_formed _ _ H).
  - (* columnArgExpr *)
    destruct ctx; intros a H; cbn [visitColumnArgExpr] in H.
    + discriminate.
    + exact (visitColumnExpr_well_formed _ _ H).
  - (* selectUnionStmt *)
    destruct ctx as [selects]; intros a H; cbn [visitSelectUnionStmt] in H.
    destruct selects as [|select [|]]; try discriminate.
    exact (visitSelectStmtWithParens_well_formed _ _ H).
  - (* selectStmtWithParens *)
    destruct ctx; intros a H; cbn [visitSelectStmtWithParens] in H.
    + exact (visitSelectStmt_well_formed _ _ H).
    + exact (visitSelectUnionStmt_well_formed _ _ H).
  - (* selectStmt *)
    destruct ctx; intros a H; cbn [visitSelectStmt] in H.
    peel H. injection H as <-.
    rewrite well_formed_SelectQuery.
    assert (forallb well_formed a0 = true) as ->.
    { destruct columnExprList as [l|]; [|injection E as <-; reflexivity].
      refine (mapM_forallb _ _ l _ _ E). clear E.
      induction l as [|x l IH];
        [constructor
        |constructor; [exact (visitColumnsExpr_well_formed x) | exact IH]]. }
    assert (well_formed_opt a1 = true) as ->.
    { destruct fromClause as [j|]; [|injection E0 as <-; reflexivity].
      exact (fmap_Some_well_formed _ _ (visitJoinExpr_well_formed j) E0). }
    assert (well_formed_opt a2 = true) as ->.
    { destruct whereClause as [c|]; [|injection E1 as <-; reflexivity].
      exact (fmap_Some_well_formed _ _ (visitColumnExpr_well_formed c) E1). }
    assert (well_formed_opt a3 = true) as ->.
    { destruct prewhereClause as [c|]; [|injection E2 as <-; reflexivity].
      exact (fmap_Some_well_formed _ _ (visitColumnExpr_well_formed c) E2). }
    assert (well_formed_opt a4 = true) as ->.
    { destruct havingClause as [c|]; [|injection E3 as <-; reflexivity].
      exact (fmap_Some_well_formed _ _ (visitColumnExpr_well_formed c) E3). }
    reflexivity.
  - (* joinExpr *)
    destruct ctx; intros a H; cbn [visitJoinExpr] in H.
    + destruct GLOBAL; [discriminate|]. destruct LOCAL; [discriminate|].
      peel H.
      apply visitJoinExpr_well_formed in E, E0.
      apply visitJoinConstraintClause_well_formed in E2.
      exact (attach_join_well_formed _ _ _ E0 E2 _ _ E H).
    + discriminate.
    + destruct sampleClause; [discriminate|].
      peel H. apply visitTableExpr_well_formed in E.
      destruct a0; injection H as <-;
        try (rewrite well_formed_JoinExpr; cbn [well_formed_opt];
             rewrite E; reflexivity).
      rewrite well_formed_JoinExpr in *. exact E.
    + exact (visitJoinExpr_well_formed _ _ H).
  - (* joinConstraintClause *)
    destruct ctx as [USING l]; intros a H;
      cbn [visitJoinConstraintClause] in H.
    destruct USING; [discriminate|].
    peel H.
    assert (forallb well_formed a0 = true) as Ha.
    { refine (mapM_forallb _ _ l _ _ E). clear E.
      induction l as [|x l' IH];
        [constructor
        |constructor; [exact (visitColumnsExpr_well_formed x) | exact IH]]. }
    destruct a0 as [|e [|]]; try discriminate. injection H as <-.
    simpl in Ha. rewrite andb_true_r in Ha. exact Ha.
  - (* tableExpr *)
    destruct ctx; intros a H; cbn [visitTableExpr] in H.
    + injection H as <-. apply visitTableIdentifier_well_formed.
    + discriminate.
    + exact (visitSelectUnionStmt_well_formed _ _ H).
    + peel H. injection H as <-.
      apply visitTableExpr_well_formed in E.
      rewrite well_formed_JoinExpr. simpl. rewrite E. reflexivity.
Qed.

End WellFormed.

(** ** Join chains *)

Section JoinChains.
Variable psl : string -> string.

Lemma visitSelectStmt_is_select ctx a :
  visitSelectStmt psl ctx = Ok a -> is_SelectQuery a = true.
Proof.
  destruct ctx; cbn [visitSelectStmt]; intros H.
  peel H. injection H as <-. reflexivity.
Qed.

Lemma visitSelectUnionStmt_is_select (ctx : SelectUnionStmtContext) :
  forall a, visitSelectUnionStmt psl ctx = Ok a -> is_SelectQuery a = true
with visitSelectStmtWithParens_is_select (ctx : SelectStmtWithParensContext) :
  forall a, visitSelectStmtWithParens psl ctx = Ok a -> is_SelectQuery a = true.
Proof.
  - destruct ctx as [selects]; intros a H; cbn [visitSelectUnionStmt] in H.
    destruct selects as [|select [|]]; try discriminate.
    exact (visitSelectStmtWithParens_is_select _ _ H).
  - destruct ctx; intros a H; cbn [visitSelectStmtWithParens] in H.
    + exact (visitSelectStmt_is_select _ _ H).
    + exact (visitSelectUnionStmt_is_select _ _ H).
Qed.

(** A table expression is never a node with a forward link. *)
Lemma visitTableExpr_no_link ctx t table_final alias ty c next :
  visitTableExpr psl ctx = Ok (JoinExpr t table_final alias ty c next) ->
  next = None.
Proof.
  destruct ctx; cbn [visitTableExpr]; intros H.
  - destruct tableIdentifier as [[d|] i]; discriminate.
  - discriminate.
  - apply visitSelectUnionStmt_is_select in H. discriminate.
  - peel H. injection H as _ _ _ _ _ <-. reflexivity.
Qed.

(** Attaching to a chain succeeds and rewrites exactly its last step. *)
Lemma attach_join_steps join2 join_constraint join_type :
  forall join1,
    is_join_chain join1 = true ->
    exists r init last,
      attach_join join1 join2 join_constraint join_type = Ok r
      /\ join_steps join1 = init ++ [last]
      /\ join_steps r
         = init ++ [with_join last join_type join_constraint]
           ++ join_steps join2
      /\ is_join_chain r = is_join_chain join2.
Proof.
  fix IH 1. intros join1 H.
  destruct join1
    as [?|?|?|?|? ? ?|? ? ?|?|?|?|? ?|t tf al ty c [next|]|? ? ? ? ? ? ?];
    try discriminate; cbn [is_join_chain] in H.
  - destruct (IH next H) as (r & init & last & E & S1 & Sr & Hr).
    exists (JoinExpr t tf al ty c (Some r)), (JoinStep t tf al ty c :: init),
      last.
    cbn [attach_join]. rewrite E. cbn [join_steps is_join_chain].
    rewrite S1, Sr. repeat split; auto.
  - exists (JoinExpr t tf al (Some join_type) (Some join_constraint)
              (Some join2)),
      [], (JoinStep t tf al ty c).
    cbn [attach_join join_steps is_join_chain]. repeat split; auto.
Qed.

Lemma visitJoinExpr_is_join_chain (ctx : JoinExprContext) :
  forall j, visitJoinExpr psl ctx = Ok j -> is_join_chain j = true.
Proof.
  induction ctx as [j0 IH0 GLOBAL LOCAL op j1 IH1 cc| |t FINAL sample|j IH];
    intros r H; cbn [visitJoinExpr] in H.
  - destruct GLOBAL; [discriminate|]. destruct LOCAL; [discriminate|].
    peel H. specialize (IH0 _ E). specialize (IH1 _ E0).
    destruct (attach_join_steps a0 a2 a1 a IH0) as (r' & _ & _ & E' & _ & _ & Hr).
    rewrite E' in H. injection H as <-. rewrite Hr. exact IH1.
  - discriminate.
  - destruct sample; [discriminate|]. peel H.
    destruct a; injection H as <-; try reflexivity.
    apply visitTableExpr_no_link in E. subst. reflexivity.
  - auto.
Qed.

End JoinChains.

(** * The specification's claims *)



(** ** Node predicates *)

Lemma all_nodes_impl (p q : expr -> bool) :
  (forall x, p x = true -> q x = true) ->
  forall e, all_nodes p e = true -> all_nodes q e = true.
Proof.
  intros Hpq. fix IH 1. intros e H.
  destruct e; cbn [all_nodes] in *;
    apply andb_prop in H as [Hp H]; rewrite (Hpq _ Hp); cbn [andb];
    try reflexivity.
  - apply andb_prop in H as [H1 H2]. rewrite (IH _ H1), (IH _ H2). reflexivity.
  - apply andb_prop in H as [H1 H2]. rewrite (IH _ H1), (IH _ H2). reflexivity.
  - clear Hp. induction exprs as [|x l IHl]; [reflexivity|].
    cbn [forallb] in *. apply andb_prop in H as [H1 H2].
    rewrite (IH x H1), (IHl H2). reflexivity.
  - clear Hp. induction exprs as [|x l IHl]; [reflexivity|].
    cbn [forallb] in *. apply andb_prop in H as [H1 H2].
    rewrite (IH x H1), (IHl H2). reflexivity.
  - exact (IH _ H).
  - clear Hp. induction args as [|x l IHl]; [reflexivity|].
    cbn [forallb] in *. apply andb_prop in H as [H1 H2].
    rewrite (IH x H1), (IHl H2). reflexivity.
  - apply andb_prop in H as [H H3]. apply andb_prop in H as [H1 H2].
    destruct table0 as [x1|], join_constraint as [x2|], join_expr as [x3|];
      repeat match goal with
        | Hx : all_nodes p ?x = true |- _ => rewrite (IH x Hx); clear Hx
        end; reflexivity.
  - apply andb_prop in H as [H H5]. apply andb_prop in H as [H H4].
    apply andb_prop in H as [H H3]. apply andb_prop in H as [H1 H2].
    destruct select_from as [x2|], where_ as [x3|], prewhere as [x4|],
      having as [x5|];
      repeat match goal with
        | Hx : all_nodes p ?x = true |- _ => rewrite (IH x Hx); clear Hx
        end;
      rewrite ?andb_true_r;
      (clear Hp; induction select as [|x l IHl]; [reflexivity|];
       cbn [forallb] in *; apply andb_prop in H1 as [H1 H1'];
       rewrite (IH x H1), (IHl H1'); reflexivity).
Qed.

Lemma node_ok_flat (e : expr) : node_ok e = true -> flat_node e = true.
Proof.
  unfold node_ok. intros H.
  apply andb_prop in H as [H _]. apply andb_prop in H as [H _]. exact H.
Qed.

Lemma node_ok_chain (e : expr) : node_ok e = true -> chain_node e = true.
Proof.
  unfold node_ok. intros H.
  apply andb_prop in H as [H _]. apply andb_prop in H as [_ H]. exact H.
Qed.

Lemma visitSelectQuery_well_formed psl ctx a :
  visitSelectQuery psl ctx = Ok a -> well_formed a = true.
Proof.
  destruct ctx; cbn [visitSelectQuery].
  - apply visitSelectUnionStmt_well_formed.
  - apply visitSelectStmt_well_formed.
Qed.

Lemma and_array_not_And (e : expr) : is_And e = false -> and_array e = [e].
Proof. destruct e; simpl; congruence. Qed.

Lemma or_array_not_Or (e : expr) : is_Or e = false -> or_array e = [e].
Proof. destruct e; simpl; congruence. Qed.

(** C2.  Whenever the two operands of a binary AND (OR) convert, the
    production converts to one [And] ([Or]) whose [exprs] is the left
    operand's element list followed by the right operand's, an operand of
    the same kind contributing its own [exprs] and any other operand
    itself.  Hence in every converted expression and statement no [And] has
    an [And] among its elements and no [Or] an [Or]; and when [a], [b], [c]
    convert to nodes that are not of the operator's kind, both
    [(a AND b) AND c] and [a AND (b AND c)] convert to the single node
    [And [a; b; c]] (likewise for OR). *)
Theorem boolean_chains_are_flat (psl : string -> string)
    (a b c : ColumnExprContext) (a' b' c' : expr) :
  visitColumnExpr psl a = Ok a' ->
  visitColumnExpr psl b = Ok b' ->
  visitColumnExpr psl c = Ok c' ->
  visitColumnExpr psl (ColumnExprAnd a b)
  = Ok (And (and_array a' ++ and_array b'))
  /\ visitColumnExpr psl (ColumnExprOr a b)
     = Ok (Or (or_array a' ++ or_array b'))
  /\ (forall ctx e,
        visitColumnExpr psl ctx = Ok e -> all_nodes flat_node e = true)
  /\ (forall ctx e,
        visitSelectQuery psl ctx = Ok e -> all_nodes flat_node e = true)
  /\ (is_And a' = false -> is_And b' = false -> is_And c' = false ->
      visitColumnExpr psl (ColumnExprAnd (ColumnExprAnd a b) c)
      = Ok (And [a'; b'; c'])
      /\ visitColumnExpr psl (ColumnExprAnd a (ColumnExprAnd b c))
         = Ok (And [a'; b'; c']))
  /\ (is_Or a' = false -> is_Or b' = false -> is_Or c' = false ->
      visitColumnExpr psl (ColumnExprOr (ColumnExprOr a b) c)
      = Ok (Or [a'; b'; c'])
      /\ visitColumnExpr psl (ColumnExprOr a (ColumnExprOr b c))
         = Ok (Or [a'; b'; c'])).
Proof.
  intros Ea Eb Ec.
  split; [cbn [visitColumnExpr]; rewrite Ea, Eb; reflexivity|].
  split; [cbn [visitColumnExpr]; rewrite Ea, Eb; reflexivity|].
  split.
  { intros ctx e H. apply (all_nodes_impl node_ok); [exact node_ok_flat|].
    exact (visitColumnExpr_well_formed psl ctx e H). }
  split.
  { intros ctx e H. apply (all_nodes_impl node_ok); [exact node_ok_flat|].
    exact (visitSelectQuery_well_formed psl ctx e H). }
  split.
  - intros Ha Hb Hc. cbn [visitColumnExpr]. rewrite Ea, Eb, Ec.
    cbn [mbind result_bind and_array app].
    rewrite !(and_array_not_And _ Ha), !(and_array_not_And _ Hb),
      !(and_array_not_And _ Hc).
    split; reflexivity.
  - intros Ha Hb Hc. cbn [visitColumnExpr]. rewrite Ea, Eb, Ec.
    cbn [mbind result_bind or_array app].
    rewrite !(or_array_not_Or _ Ha), !(or_array_not_Or _ Hb),
      !(or_array_not_Or _ Hc).
    split; reflexivity.
Qed.

(** C2 at [a AND b AND c] over three column names, under both groupings. *)
Lemma boolean_chains_are_flat_witness :
  visitColumnExpr strip_delimiters
    (ColumnExprAnd (ColumnExprAnd (column "a") (column "b")) (column "c"))
  = Ok (And [FieldAccess "a"; FieldAccess "b"; FieldAccess "c"])
  /\ visitColumnExpr strip_delimiters
       (ColumnExprAnd (column "a") (ColumnExprAnd (column "b") (column "c")))
     = Ok (And [FieldAccess "a"; FieldAccess "b"; FieldAccess "c"]).
Proof.
  exact (proj1 (proj2 (proj2 (proj2 (proj2
           (boolean_chains_are_flat strip_delimiters
              (column "a") (column "b") (column "c")
              (FieldAccess "a") (FieldAccess "b") (FieldAccess "c")
              eq_refl eq_refl eq_refl)))))
           eq_refl eq_refl eq_refl).
Defined.

(** ** Identifiers and LIMIT *)

Lemma visitColumnExpr_column psl text :
  visitColumnExpr psl (column text)
  = if String.eqb (lower text) "true" then Ok (Constant (VBool true))
    else if String.eqb (lower text) "false" then Ok (Constant (VBool false))
    else Ok (FieldAccess text).
Proof. reflexivity. Qed.

Lemma visitColumnExpr_boolean psl text (b : bool) :
  lower text = (if b then "true" else "false") ->
  visitColumnExpr psl (column text) = Ok (Constant (VBool b)).
Proof.
  intros H. rewrite visitColumnExpr_column, H. destruct b; reflexivity.
Qed.

Lemma select_1_limit_eq psl limit offset :
  parse_statement psl (select_1_limit limit offset) None
  = (limit_node ← visitColumnExpr psl limit;
     limit_value ← integer_constant "LIMIT" limit_node;
     match offset with
     | Some c =>
         offset_node ← visitColumnExpr psl c;
         offset_value ← integer_constant "OFFSET" offset_node;
         Ok (select_1_result (Some limit_value) (Some offset_value))
     | None => Ok (select_1_result (Some limit_value) None)
     end).
Proof.
  unfold parse_statement, select_1_limit, select_query, select_stmt.
  cbn [visitSelectQuery visitSelectUnionStmt visitSelectStmtWithParens
       visitSelectStmt].
  destruct (visitColumnExpr psl limit) as [n|e]; [|reflexivity].
  cbn [mbind result_bind].
  destruct (integer_constant "LIMIT" n) as [v|e]; [|reflexivity].
  destruct offset as [c|]; [|reflexivity].
  cbn [mbind result_bind].
  destruct (visitColumnExpr psl c) as [n'|e]; [|reflexivity].
  cbn [mbind result_bind].
  destruct (integer_constant "OFFSET" n') as [v'|e]; reflexivity.
Qed.

(** C3.  The converter at [SELECT 1 LIMIT true]: the limit expression
    converts to the boolean constant, the integer check lets it through
    and [limit] is the boolean [True], where the claim has the conversion
    fail with "LIMIT must be an integer".  The claim's two examples behave
    as stated: [SELECT 1 LIMIT 1.5] fails with that error and
    [SELECT 1 LIMIT 5 OFFSET 2] gives [limit = 5] and [offset = 2]. *)
Theorem limit_true_is_not_rejected (psl : string -> string) :
  parse_statement psl (select_1_limit (column "true") None) None
  = Ok (select_1_result (Some (VBool true)) None)
  /\ parse_statement psl (select_1_limit (number "1.5") None) None
     = Raise (Exception "LIMIT must be an integer")
  /\ parse_statement psl (select_1_limit (number "5") (Some (number "2"))) None
     = Ok (select_1_result (Some (VInt 5)) (Some (VInt 2))).
Proof. repeat split; reflexivity. Qed.

(** C10.  A bare identifier spelling [true] or [false] in any letter case
    converts to a boolean [Constant]; [isinstance(value, int)] holds of a
    boolean, so the LIMIT and the OFFSET checks return it, and
    [SELECT 1 LIMIT true] converts with [limit] set to the boolean (and
    [SELECT 1 LIMIT 5 OFFSET true] with [offset] set to it) instead of
    raising "LIMIT must be an integer". *)
Theorem limit_check_accepts_booleans (psl : string -> string)
    (text : string) (b : bool) :
  lower text = (if b then "true" else "false") ->
  visitColumnExpr psl (column text) = Ok (Constant (VBool b))
  /\ isinstance_int (VBool b) = true
  /\ (forall clause,
        integer_constant clause (Constant (VBool b)) = Ok (VBool b))
  /\ parse_statement psl (select_1_limit (column text) None) None
     = Ok (select_1_result (Some (VBool b)) None)
  /\ parse_statement psl
       (select_1_limit (number "5") (Some (column text))) None
     = Ok (select_1_result (Some (VInt 5)) (Some (VBool b))).
Proof.
  intros H. pose proof (visitColumnExpr_boolean psl text b H) as E.
  repeat split; try reflexivity; try exact E.
  - rewrite select_1_limit_eq, E. reflexivity.
  - rewrite select_1_limit_eq, E. reflexivity.
Qed.

(** C10 at [SELECT 1 LIMIT TRUE]. *)
Lemma limit_check_accepts_booleans_witness :
  lower "TRUE" = "true"
  /\ parse_statement strip_delimiters (select_1_limit (column "TRUE") None) None
     = Ok (select_1_result (Some (VBool true)) None).
Proof.
  split; [reflexivity|].
  exact (proj1 (proj2 (proj2 (proj2
           (limit_check_accepts_booleans strip_delimiters "TRUE" true
              eq_refl))))).
Defined.

(** C8.  A bare single-segment identifier whose lowered text is [true]
    ([false]) converts to [Constant(True)] ([Constant(False)]); any other
    bare single-segment identifier stays a [FieldAccess]; and the same
    identifier behind a table prefix is not tested at all: the table's
    segments and the identifier form a [FieldAccessChain]. *)
Theorem boolean_identifier_only_unqualified (psl : string -> string)
    (text : string) (b : bool) :
  lower text = (if b then "true" else "false") ->
  visitColumnExpr psl (column text) = Ok (Constant (VBool b))
  /\ (forall tableIdentifier,
        visitColumnExpr psl
          (ColumnExprIdentifier
             (ColumnIdentifier (Some tableIdentifier)
                (NestedIdentifier (IdentifierToken text) [])))
        = Ok (FieldAccessChain (table_segments tableIdentifier ++ [VStr text])))
  /\ (forall other,
        lower other <> "true" -> lower other <> "false" ->
        visitColumnExpr psl (column other) = Ok (FieldAccess other)).
Proof.
  intros H. split; [exact (visitColumnExpr_boolean psl text b H)|]. split.
  - intros [[d|] i]; reflexivity.
  - intros other Ht Hf. rewrite visitColumnExpr_column.
    destruct (String.eqb_spec (lower other) "true"); [contradiction|].
    destruct (String.eqb_spec (lower other) "false"); [contradiction|].
    reflexivity.
Qed.

(** C8 at [False], bare and as [t.False]. *)
Lemma boolean_identifier_only_unqualified_witness :
  lower "False" = "false"
  /\ visitColumnExpr strip_delimiters (column "False")
     = Ok (Constant (VBool false))
  /\ visitColumnExpr strip_delimiters (dotted true "t" "False")
     = Ok (FieldAccessChain [VStr "t"; VStr "False"]).
Proof.
  split; [reflexivity|].
  pose proof (boolean_identifier_only_unqualified strip_delimiters "False"
                false eq_refl) as (Hbare & Hq & _).
  split; [exact Hbare|].
  exact (Hq (TableIdentifier None (IdentifierToken "t"))).
Defined.

(** ** Operators *)

Lemma close_additive_converts psl additive additive' term term' :
  additive_converts psl additive additive' -> converts psl term term' ->
  converts psl (close_additive additive term)
    (bracket_outer additive' term').
Proof.
  unfold additive_converts, converts.
  destruct additive as [[l operator]|], additive' as [[l' op']|];
    try tauto.
  intros [Hl Hop] Ht. cbn [close_additive bracket_outer visitColumnExpr].
  cbn [operator_op] in Hop.
  destruct (precedence2_op operator) as [op|]; [|discriminate].
  injection Hop as <-. cbn [mbind result_bind]. rewrite Hl, Ht. reflexivity.
Qed.

Lemma close_comparison_converts psl comparison comparison' sum sum' :
  comparison_converts psl comparison comparison' -> converts psl sum sum' ->
  converts psl (close_comparison comparison sum)
    (bracket_outer comparison' sum').
Proof.
  unfold comparison_converts, converts.
  destruct comparison as [[l [operator NOT]]|], comparison' as [[l' op']|];
    try tauto.
  intros [Hl Hop] Ht. cbn [close_comparison bracket_outer visitColumnExpr].
  cbn [operator_op] in Hop.
  destruct (precedence3_op operator false NOT) as [op|]; [|discriminate].
  injection Hop as <-. cbn [mbind result_bind]. rewrite Hl, Ht. reflexivity.
Qed.

(** The tree [parse_tiers] builds converts to the bracketing
    [bracket_tiers] builds from the converted operands. *)
Lemma parse_tiers_converts psl rest :
  forall rest' comparison comparison' additive additive' term term',
    comparison_converts psl comparison comparison' ->
    additive_converts psl additive additive' ->
    converts psl term term' ->
    Forall2 (fun step step' =>
               operator_op (fst step) = Some (fst step')
               /\ visitColumnExpr psl (snd step) = Ok (snd step'))
      rest rest' ->
    converts psl (parse_tiers comparison additive term rest)
      (bracket_tiers comparison' additive' term' rest').
Proof.
  induction rest as [|[operator operand] rest IH];
    intros rest' comparison comparison' additive additive' term term'
      Hc Ha Ht Hrest; inversion Hrest as [|? [op' operand'] ? rest'' [Hop Hv] Hr];
    subst.
  - cbn [parse_tiers bracket_tiers].
    apply close_comparison_converts; [assumption|].
    apply close_additive_converts; assumption.
  - cbn [fst snd] in *.
    pose proof (close_additive_converts psl _ _ _ _ Ha Ht) as Hsum.
    pose proof (close_comparison_converts psl _ _ _ _ Hc Hsum) as Hcmp.
    destruct operator as [o|o|o NOT].
    + cbn [operator_op] in Hop. injection Hop as <-.
      cbn [parse_tiers bracket_tiers].
      assert (op_tier (BinaryOp (precedence1_op o)) = 1%nat) as ->
          by (destruct o; reflexivity).
      apply IH; [exact Hc|exact Ha| |exact Hr].
      unfold converts in *. cbn [visitColumnExpr bracketing_expr].
      rewrite Ht, Hv. reflexivity.
    + assert (op_tier op' = 2%nat) as Htier.
      { cbn [operator_op] in Hop. destruct o; try discriminate;
          injection Hop as <-; reflexivity. }
      cbn [parse_tiers bracket_tiers]. rewrite Htier.
      apply IH; [exact Hc|exact (conj Hsum Hop)|exact Hv|exact Hr].
    + assert (op_tier op' = 3%nat) as Htier.
      { cbn [operator_op] in Hop.
        destruct (precedence3_op o false NOT); [|discriminate].
        injection Hop as <-. reflexivity. }
      cbn [parse_tiers bracket_tiers]. rewrite Htier.
      apply IH; [exact (conj Hcmp Hop)|exact I|exact Hv|exact Hr].
Qed.


(** The yield of a pending left operand and operator before [inner]. *)
Lemma yield_bracket_outer pending inner :
  yield (bracket_outer pending inner)
  = match pending with
    | Some (l, op) =>
        (fst (yield l),
         snd (yield l) ++ (op, fst (yield inner)) :: snd (yield inner))
    | None => yield inner
    end.
Proof. destruct pending as [[l op]|]; reflexivity. Qed.

Lemma yield_bracket_tiers rest :
  forall comparison additive term,
    yield (bracket_tiers comparison additive term rest)
    = (fst (yield (bracket_outer comparison (bracket_outer additive term))),
       snd (yield (bracket_outer comparison (bracket_outer additive term)))
       ++ rest).
Proof.
  induction rest as [|[op operand] rest IH]; intros comparison additive term.
  - cbn [bracket_tiers]. rewrite app_nil_r. apply surjective_pairing.
  - cbn [bracket_tiers].
    destruct (op_tier op) as [|[|[|n]]]; rewrite IH;
      rewrite ?yield_bracket_outer;
      destruct comparison as [[lc opc]|], additive as [[la opa]|];
      cbn [bracket_outer yield fst snd]; f_equal;
      repeat (progress (cbn [app]; rewrite <- ?app_assoc)); reflexivity.
Qed.

Lemma tier_le_3 b : (tier b <= 3)%nat.
Proof. destruct b as [e|[[| | | |]|op] l r]; simpl; lia. Qed.

Lemma precedence_respected_Operation op l r :
  (tier l <= op_tier op)%nat -> (tier r <= op_tier op)%nat ->
  precedence_respected l = true -> precedence_respected r = true ->
  precedence_respected (Operation op l r) = true.
Proof.
  intros Hl Hr Pl Pr. cbn [precedence_respected].
  apply Nat.leb_le in Hl, Hr. rewrite Hl, Hr, Pl, Pr. reflexivity.
Qed.

Lemma bracket_outer_respected n pending inner :
  pending_ok n pending -> (tier inner <= n)%nat ->
  precedence_respected inner = true ->
  precedence_respected (bracket_outer pending inner) = true
  /\ (tier (bracket_outer pending inner) <= n)%nat.
Proof.
  destruct pending as [[l op]|]; cbn [pending_ok bracket_outer];
    [|auto].
  intros (Pl & Tl & Top) Ti Pi. split.
  - apply precedence_respected_Operation; auto; lia.
  - cbn [tier]. lia.
Qed.

Lemma bracket_tiers_respected rest :
  forall comparison additive term,
    pending_ok 3 comparison -> pending_ok 2 additive ->
    precedence_respected term = true -> (tier term <= 1)%nat ->
    precedence_respected (bracket_tiers comparison additive term rest) = true.
Proof.
  induction rest as [|[op operand] rest IH];
    intros comparison additive term Hc Ha Pt Tt.
  - cbn [bracket_tiers].
    destruct (bracket_outer_respected 2 additive term Ha) as [Ps Ts];
      [lia|assumption|].
    apply (bracket_outer_respected 3 comparison); auto; lia.
  - cbn [bracket_tiers].
    destruct (bracket_outer_respected 2 additive term Ha) as [Ps Ts];
      [lia|assumption|].
    destruct (bracket_outer_respected 3 comparison
                (bracket_outer additive term) Hc) as [Pc Tc];
      [lia|assumption|].
    destruct (op_tier op) as [|[|[|n]]] eqn:Top.
    + destruct op as [[| | | |]|]; discriminate.
    + apply IH; auto.
      * apply precedence_respected_Operation; auto; simpl; lia.
      * cbn [tier]. lia.
    + apply IH; cbn [pending_ok]; auto.
    + assert (n = 0%nat) as ->
          by (destruct op as [[| | | |]|]; simpl in Top; lia).
      apply IH; cbn [pending_ok]; auto using tier_le_3.
Qed.

(** C4.  A sequence of operands joined by multiplicative, additive and
    comparison operators, bracketed by precedence climbing, converts (when
    its operands convert and the converter accepts its operator tokens) to
    a tree of [BinaryOperation] and [CompareOperation] nodes that lists the
    converted operands and the operators the tokens map to in source order
    and in which no operation has an operation of a looser tier as an
    operand: multiplicative binds tighter than additive, which binds
    tighter than comparison.  [1 + 2 * 3] is bracketed as [1 + (2 * 3)]
    and converts to [BinaryOperation(Add, 1, BinaryOperation(Mult, 2, 3))];
    the tokens [*], [/], [%], [+], [-], [=], [==], [!=], [<], [<=], [>],
    [>=], [LIKE], [ILIKE], [IN] and their [NOT] forms map to the
    operators listed. *)
Theorem arithmetic_precedence_respected (psl : string -> string)
    (first : ColumnExprContext)
    (rest : list (arith_operator * ColumnExprContext))
    (first' : expr) (rest' : list (arith_op * expr)) :
  visitColumnExpr psl first = Ok first' ->
  Forall2 (fun step step' =>
             operator_op (fst step) = Some (fst step')
             /\ visitColumnExpr psl (snd step) = Ok (snd step'))
    rest rest' ->
  (exists b,
     visitColumnExpr psl (parse_arithmetic first rest) = Ok (bracketing_expr b)
     /\ parse_expr psl (parse_arithmetic first rest) None
        = Ok (bracketing_expr b)
     /\ yield b = (first', rest')
     /\ precedence_respected b = true)
  /\ parse_arithmetic (number "1")
       [(Additive PLUS, number "2"); (Multiplicative ASTERISK, number "3")]
     = one_plus_two_times_three
  /\ parse_expr psl one_plus_two_times_three None
     = Ok (BinaryOperation (Constant (VInt 1))
             (BinaryOperation (Constant (VInt 2)) (Constant (VInt 3))
                BinaryOperationType.Mult)
             BinaryOperationType.Add)
  /\ map operator_op
       [Multiplicative ASTERISK; Multiplicative SLASH; Multiplicative PERCENT;
        Additive PLUS; Additive DASH;
        Comparison EQ_SINGLE false; Comparison EQ_DOUBLE false;
        Comparison NOT_EQ false; Comparison LT false; Comparison LE false;
        Comparison GT false; Comparison GE false;
        Comparison LIKE false; Comparison LIKE true;
        Comparison ILIKE false; Comparison ILIKE true;
        Comparison IN false; Comparison IN true]
     = map Some
         [BinaryOp BinaryOperationType.Mult; BinaryOp BinaryOperationType.Div;
          BinaryOp BinaryOperationType.Mod;
          BinaryOp BinaryOperationType.Add; BinaryOp BinaryOperationType.Sub;
          CompareOp CompareOperationType.Eq; CompareOp CompareOperationType.Eq;
          CompareOp CompareOperationType.NotEq;
          CompareOp CompareOperationType.Lt; CompareOp CompareOperationType.LtE;
          CompareOp CompareOperationType.Gt; CompareOp CompareOperationType.GtE;
          CompareOp CompareOperationType.Like;
          CompareOp CompareOperationType.NotLike;
          CompareOp CompareOperationType.ILike;
          CompareOp CompareOperationType.NotILike;
          CompareOp CompareOperationType.In;
          CompareOp CompareOperationType.NotIn].
Proof.
  intros Hfirst Hrest.
  split; [|repeat split; reflexivity].
  exists (bracket_tiers None None (Operand first') rest').
  assert (visitColumnExpr psl (parse_arithmetic first rest)
          = Ok (bracketing_expr
                  (bracket_tiers None None (Operand first') rest'))) as Hv.
  { exact (parse_tiers_converts psl rest rest' None None None None first
             (Operand first') I I Hfirst Hrest). }
  split; [exact Hv|]. split.
  { unfold parse_expr. rewrite Hv. reflexivity. }
  split.
  - rewrite yield_bracket_tiers. reflexivity.
  - apply bracket_tiers_respected; cbn [pending_ok tier]; auto.
Qed.

(** C4 at [1 + 2 * 3 < 4]. *)
Lemma arithmetic_precedence_respected_witness :
  exists b,
    visitColumnExpr strip_delimiters sum_less_than_four
    = Ok (bracketing_expr b)
    /\ yield b
       = (Constant (VInt 1),
          [(BinaryOp BinaryOperationType.Add, Constant (VInt 2));
           (BinaryOp BinaryOperationType.Mult, Constant (VInt 3));
           (CompareOp CompareOperationType.Lt, Constant (VInt 4))])
    /\ precedence_respected b = true.
Proof.
  destruct (proj1 (arithmetic_precedence_respected strip_delimiters
              (number "1")
              [(Additive PLUS, number "2");
               (Multiplicative ASTERISK, number "3");
               (Comparison LT false, number "4")]
              (Constant (VInt 1))
              [(BinaryOp BinaryOperationType.Add, Constant (VInt 2));
               (BinaryOp BinaryOperationType.Mult, Constant (VInt 3));
               (CompareOp CompareOperationType.Lt, Constant (VInt 4))]
              eq_refl
              ltac:(repeat constructor)))
    as (b & Hv & _ & Hy & Hp).
  exists b. auto.
Defined.

(** ** Error kinds *)

Lemma integer_constant_rejects clause node :
  (forall v, node = Constant v -> isinstance_int v = false) ->
  integer_constant clause node
  = Raise (Exception (clause +:+ " must be an integer")).
Proof.
  intros H. destruct node; try reflexivity.
  simpl. rewrite (H v eq_refl). reflexivity.
Qed.

(** C5, as the claim states it, fails: a JOIN ... ON with two expressions
    and an array access with a non-constant key both raise
    [NotImplementedError], the very exception an unimplemented production
    such as a cast raises. *)
Lemma semantic_violations_raise_not_implemented :
  visitJoinConstraintClause strip_delimiters
    (JoinConstraintClause false
       [ColumnsExprColumn (column "x"); ColumnsExprColumn (column "y")])
  = Raise (NotImplementedError
             "Unsupported: JOIN ... ON with multiple expressions")
  /\ visitColumnExpr strip_delimiters
       (ColumnExprArrayAccess (column "a") (column "b"))
     = Raise (NotImplementedError
                "Array access must be performed with a constant.")
  /\ visitColumnExpr strip_delimiters (ColumnExprUnsupported Cast)
     = Raise (NotImplementedError "Unsupported node: ColumnExprCast")
  /\ is_not_implemented
       (NotImplementedError
          "Unsupported: JOIN ... ON with multiple expressions") = true.
Proof. repeat split; reflexivity. Qed.

(** C5, amended.  When a statement's projection, FROM, WHERE, PREWHERE
    and HAVING convert (the statement without LIMIT and without the
    unsupported clauses converts) and its LIMIT expression converts to
    anything but a [Constant] passing the integer check, the conversion
    raises the plain [Exception] "LIMIT must be an integer", whatever
    other clauses the statement has; when the LIMIT value is accepted and
    the OFFSET expression converts to such a node, it raises "OFFSET must
    be an integer".  That exception is not a [NotImplementedError].  A
    JOIN ... ON without USING whose expressions all convert and are not
    exactly one, an array access whose base and key convert and whose key
    is not a [Constant], and one whose key is a [Constant] and whose base
    is neither [FieldAccess] nor [FieldAccessChain] raise
    [NotImplementedError], the same exception every unimplemented
    production raises. *)
Theorem semantic_violation_error_kinds (psl : string -> string) :
  (forall clause node,
     (forall v, node = Constant v -> isinstance_int v = false) ->
     integer_constant clause node
     = Raise (Exception (clause +:+ " must be an integer"))
     /\ is_not_implemented (Exception (clause +:+ " must be an integer"))
        = false)
  /\ (forall w t columnExprList fromClause aj win prewhereClause whereClause
        g havingClause o lb s q limit offset node,
        visitSelectStmt psl
          (SelectStmt false false columnExprList fromClause false false
             prewhereClause whereClause false havingClause false false
             None false) = Ok q ->
        visitColumnExpr psl limit = Ok node ->
        (forall v, node = Constant v -> isinstance_int v = false) ->
        visitSelectStmt psl
          (SelectStmt w t columnExprList fromClause aj win prewhereClause
             whereClause g havingClause o lb
             (Some (LimitExpr limit offset)) s)
        = Raise (Exception "LIMIT must be an integer"))
  /\ (forall w t columnExprList fromClause aj win prewhereClause whereClause
        g havingClause o lb s q limit v offset node,
        visitSelectStmt psl
          (SelectStmt false false columnExprList fromClause false false
             prewhereClause whereClause false havingClause false false
             None false) = Ok q ->
        visitColumnExpr psl limit = Ok (Constant v) ->
        isinstance_int v = true ->
        visitColumnExpr psl offset = Ok node ->
        (forall v', node = Constant v' -> isinstance_int v' = false) ->
        visitSelectStmt psl
          (SelectStmt w t columnExprList fromClause aj win prewhereClause
             whereClause g havingClause o lb
             (Some (LimitExpr limit (Some offset))) s)
        = Raise (Exception "OFFSET must be an integer"))
  /\ (forall columnExprList column_expr_list,
        mapM (visitColumnsExpr psl) columnExprList = Ok column_expr_list ->
        length columnExprList <> 1%nat ->
        visitJoinConstraintClause psl
          (JoinConstraintClause false columnExprList)
        = Raise (NotImplementedError
                   "Unsupported: JOIN ... ON with multiple expressions"))
  /\ (forall columnExpr0 columnExpr1 object property,
        visitColumnExpr psl columnExpr0 = Ok object ->
        visitColumnExpr psl columnExpr1 = Ok property ->
        (is_Constant property = false ->
         visitColumnExpr psl (ColumnExprArrayAccess columnExpr0 columnExpr1)
         = Raise (NotImplementedError
                    "Array access must be performed with a constant."))
        /\ (is_Constant property = true -> is_field object = false ->
            visitColumnExpr psl (ColumnExprArrayAccess columnExpr0 columnExpr1)
            = Raise (NotImplementedError
                       ("Unsupported combination for ColumnExprArrayAccess: "
                        +:+ class_name object +:+ "[Constant]"))))
  /\ (forall production,
        visitColumnExpr psl (ColumnExprUnsupported production)
        = Raise (NotImplementedError
                   ("Unsupported node: " +:+ unsupported_name production))).
Proof.
  split; [|split; [|split; [|split; [|split]]]].
  - intros clause node H. split; [|reflexivity].
    exact (integer_constant_rejects clause node H).
  - intros w t columnExprList fromClause aj win prewhereClause whereClause
      g havingClause o lb s q limit offset node Hq E H.
    cbn [visitSelectStmt] in *.
    repeat match type of Hq with
      | (?r ≫= _) = Ok _ =>
          destruct r; cbn [mbind result_bind] in *; [|discriminate]
      end.
    rewrite E. cbn [mbind result_bind].
    rewrite (integer_constant_rejects "LIMIT" node H). reflexivity.
  - intros w t columnExprList fromClause aj win prewhereClause whereClause
      g havingClause o lb s q limit v offset node Hq El Hv Eo H.
    cbn [visitSelectStmt] in *.
    repeat match type of Hq with
      | (?r ≫= _) = Ok _ =>
          destruct r; cbn [mbind result_bind] in *; [|discriminate]
      end.
    rewrite El. cbn [mbind result_bind integer_constant].
    rewrite Hv, Eo. cbn [mbind result_bind].
    rewrite (integer_constant_rejects "OFFSET" node H). reflexivity.
  - intros l es E Hlen. cbn [visitJoinConstraintClause]. rewrite E.
    cbn [mbind result_bind]. apply mapM_length in E.
    destruct es as [|e [|e' es]]; try reflexivity.
    simpl in E. congruence.
  - intros c0 c1 object property E0 E1. split.
    + intros Hp. cbn [visitColumnExpr]. rewrite E0, E1.
      cbn [mbind result_bind]. destruct property; try reflexivity.
      discriminate.
    + intros Hp Ho. cbn [visitColumnExpr]. rewrite E0, E1.
      cbn [mbind result_bind]. destruct property; try discriminate.
      destruct object; try discriminate; reflexivity.
  - reflexivity.
Qed.

(** C5 (amended) at [ON x, y]. *)
Lemma semantic_violation_error_kinds_witness :
  mapM (visitColumnsExpr strip_delimiters)
    [ColumnsExprColumn (column "x"); ColumnsExprColumn (column "y")]
  = Ok [FieldAccess "x"; FieldAccess "y"]
  /\ visitJoinConstraintClause strip_delimiters
       (JoinConstraintClause false
          [ColumnsExprColumn (column "x"); ColumnsExprColumn (column "y")])
     = Raise (NotImplementedError
                "Unsupported: JOIN ... ON with multiple expressions").
Proof.
  split; [reflexivity|].
  pose proof (semantic_violation_error_kinds strip_delimiters)
    as (_ & _ & _ & Hjoin & _).
  apply (Hjoin _ [FieldAccess "x"; FieldAccess "y"]);
    [reflexivity | discriminate].
Defined.

(** ** Field access chains *)

Lemma forallb_is_str_strings (chain : list string) :
  forallb is_str (map VStr chain) = true.
Proof. induction chain; simpl; auto. Qed.

Lemma visitNestedIdentifier_chain_strings psl ctx chain :
  visitNestedIdentifier psl ctx = Ok (FieldAccessChain chain) ->
  forallb is_str chain = true.
Proof.
  destruct (visitNestedIdentifier_cases psl ctx)
    as [(_ & ->)|(chain' & -> & _ & _)]; intros H.
  - destruct (nested_first ctx); discriminate.
  - injection H as <-. apply forallb_is_str_strings.
Qed.

Lemma visitColumnIdentifier_chain_strings psl ctx chain :
  visitColumnIdentifier psl ctx = Ok (FieldAccessChain chain) ->
  forallb is_str chain = true.
Proof.
  unfold visitColumnIdentifier. intros H.
  apply bind_Ok in H as (nested & E & H).
  destruct (column_tableIdentifier ctx) as [t|]; simpl in H.
  - apply bind_Ok in H as (c1 & E1 & H).
    apply bind_Ok in H as (c2 & E2 & H).
    injection H as <-.
    assert (forallb is_str c1 = true) as H1.
    { destruct t as [[d|] i]; injection E1 as <-; reflexivity. }
    destruct nested; try discriminate; injection E2 as <-;
      rewrite forallb_app, H1; [reflexivity|].
    rewrite (visitNestedIdentifier_chain_strings _ _ _ E). reflexivity.
  - destruct nested; try discriminate.
    + repeat match type of H with
        | context [if ?b then _ else _] => destruct b
        end; discriminate.
    + injection H as <-.
      exact (visitNestedIdentifier_chain_strings _ _ _ E).
Qed.

(** C6, as the claim states it, fails twice: [a[1]] converts to a chain
    whose second segment is the integer [1], not a string; and the
    single-segment identifier [true] converts to a boolean [Constant], not
    to a [FieldAccess]. *)
Lemma array_access_segment_not_string :
  visitColumnExpr strip_delimiters
    (ColumnExprArrayAccess (column "a") (number "1"))
  = Ok (FieldAccessChain [VStr "a"; VInt 1])
  /\ all_nodes string_chain_node (FieldAccessChain [VStr "a"; VInt 1]) = false
  /\ visitColumnExpr strip_delimiters (column "true")
     = Ok (Constant (VBool true)).
Proof. repeat split; reflexivity. Qed.

(** C6, amended.  Every [FieldAccessChain] in a converted expression or
    statement has at least two segments.  A chain produced for an
    identifier (qualified or nested) has only string segments.  A
    single-segment identifier without a table prefix never converts to a
    chain: it converts to the [FieldAccess] of its text, except that a
    text spelling [true] or [false] gives the boolean [Constant] and a
    template gives a [Placeholder].  An array access with a [Constant] key
    on a [FieldAccess] gives the two-segment chain of the field name and
    the key's value, and on a [FieldAccessChain] the chain extended by the
    key's value; that value is whatever the constant holds. *)
Theorem field_chains_have_two_segments (psl : string -> string) :
  (forall ctx e,
     visitColumnExpr psl ctx = Ok e -> all_nodes chain_node e = true)
  /\ (forall ctx e,
        visitSelectQuery psl ctx = Ok e -> all_nodes chain_node e = true)
  /\ (forall ctx chain,
        visitColumnIdentifier psl ctx = Ok (FieldAccessChain chain) ->
        forallb is_str chain = true)
  /\ (forall text,
        visitColumnExpr psl (column text)
        = if String.eqb (lower text) "true" then Ok (Constant (VBool true))
          else if String.eqb (lower text) "false"
               then Ok (Constant (VBool false))
               else Ok (FieldAccess text))
  /\ (forall text,
        visitColumnExpr psl (template text) = Ok (Placeholder (psl text)))
  /\ (forall first e chain,
        visitColumnExpr psl
          (ColumnExprIdentifier
             (ColumnIdentifier None (NestedIdentifier first []))) = Ok e ->
        e <> FieldAccessChain chain)
  /\ (forall columnExpr0 columnExpr1 field value,
        visitColumnExpr psl columnExpr0 = Ok (FieldAccess field) ->
        visitColumnExpr psl columnExpr1 = Ok (Constant value) ->
        visitColumnExpr psl (ColumnExprArrayAccess columnExpr0 columnExpr1)
        = Ok (FieldAccessChain [VStr field; value]))
  /\ (forall columnExpr0 columnExpr1 chain value,
        visitColumnExpr psl columnExpr0 = Ok (FieldAccessChain chain) ->
        visitColumnExpr psl columnExpr1 = Ok (Constant value) ->
        visitColumnExpr psl (ColumnExprArrayAccess columnExpr0 columnExpr1)
        = Ok (FieldAccessChain (chain ++ [value]))).
Proof.
  split; [|split; [|split; [|split; [|split; [|split; [|split]]]]]].
  - intros ctx e H. apply (all_nodes_impl node_ok); [exact node_ok_chain|].
    exact (visitColumnExpr_well_formed psl ctx e H).
  - intros ctx e H. apply (all_nodes_impl node_ok); [exact node_ok_chain|].
    exact (visitSelectQuery_well_formed psl ctx e H).
  - exact (visitColumnIdentifier_chain_strings psl).
  - exact (visitColumnExpr_column psl).
  - reflexivity.
  - intros [text|text] e chain H ->.
    + fold (column text) in H. rewrite visitColumnExpr_column in H.
      repeat match type of H with
        | context [if ?b then _ else _] => destruct b
        end; discriminate.
    + discriminate.
  - intros c0 c1 field value E0 E1. cbn [visitColumnExpr].
    rewrite E0, E1. reflexivity.
  - intros c0 c1 chain value E0 E1. cbn [visitColumnExpr].
    rewrite E0, E1. reflexivity.
Qed.

(** C6 (amended) at [a.b[1]]: the chain [a, b] grows by the key. *)
Lemma field_chains_have_two_segments_witness :
  visitColumnExpr strip_delimiters
    (ColumnExprArrayAccess (dotted true "a" "b") (number "1"))
  = Ok (FieldAccessChain [VStr "a"; VStr "b"; VInt 1])
  /\ all_nodes chain_node (FieldAccessChain [VStr "a"; VStr "b"; VInt 1])
     = true.
Proof.
  pose proof (field_chains_have_two_segments strip_delimiters)
    as (Hall & _ & _ & _ & _ & _ & _ & Hchain).
  pose proof (Hchain (dotted true "a" "b") (number "1")
                [VStr "a"; VStr "b"] (VInt 1) eq_refl eq_refl) as E.
  split; [exact E|]. exact (Hall _ _ E).
Defined.

(** ** Unsupported clauses *)

Lemma bind_raises {A B} (r : result A) (k : A -> result B) :
  (forall a, exists e, k a = Raise e) -> exists e, r ≫= k = Raise e.
Proof. intros H. destruct r as [a|e]; simpl; eauto. Qed.

Lemma unsupported_clauses_raise w t aj win g o lb s :
  w || t || aj || win || g || o || lb || s = true ->
  exists msg, unsupported_clauses w t aj win g o lb s
              = Raise (NotImplementedError msg).
Proof.
  unfold unsupported_clauses.
  destruct w, t, aj, win, g, o, lb, s; simpl; intros H;
    try discriminate; eauto.
Qed.

(** C7, as the claim states it, fails: in [SELECT 1 GROUP BY 1 LIMIT 1.5]
    the LIMIT check runs before the clause gate, and the error is
    "LIMIT must be an integer", which names no unsupported clause and is
    no [NotImplementedError]. *)
Lemma group_by_hidden_by_limit_error :
  parse_statement strip_delimiters
    (select_1_group_by (Some (LimitExpr (number "1.5") None))) None
  = Raise (Exception "LIMIT must be an integer")
  /\ is_not_implemented (Exception "LIMIT must be an integer") = false.
Proof. split; reflexivity. Qed.

(** C7, amended.  A [selectStmt] with any of the clauses WITH, TOP,
    ARRAY JOIN, WINDOW, GROUP BY, ORDER BY, LIMIT BY, SETTINGS never
    converts: the conversion raises and returns no AST.  When the
    projection, FROM, WHERE, PREWHERE, HAVING and LIMIT/OFFSET of the
    statement convert (the statement without those clauses converts), the
    error is the clause gate's [NotImplementedError], whose message names
    the first clause present in the order above;
    [SELECT 1 GROUP BY 1] raises
    "Unsupported: SelectStmt.groupByClause()". *)
Theorem unsupported_clauses_fail_closed (psl : string -> string)
    (columnExprList : option (list ColumnsExprContext))
    (fromClause : option JoinExprContext)
    (prewhereClause whereClause havingClause : option ColumnExprContext)
    (limitClause : option LimitExprContext)
    (w t aj win g o lb s : bool) :
  w || t || aj || win || g || o || lb || s = true ->
  (exists e,
     visitSelectStmt psl
       (SelectStmt w t columnExprList fromClause aj win prewhereClause
          whereClause g havingClause o lb limitClause s) = Raise e
     /\ forall placeholders,
          parse_statement psl
            (select_query
               (SelectStmt w t columnExprList fromClause aj win prewhereClause
                  whereClause g havingClause o lb limitClause s))
            placeholders = Raise e)
  /\ (forall q,
        visitSelectStmt psl
          (SelectStmt false false columnExprList fromClause false false
             prewhereClause whereClause false havingClause false false
             limitClause false) = Ok q ->
        exists msg,
          unsupported_clauses w t aj win g o lb s
          = Raise (NotImplementedError msg)
          /\ visitSelectStmt psl
               (SelectStmt w t columnExprList fromClause aj win prewhereClause
                  whereClause g havingClause o lb limitClause s)
             = Raise (NotImplementedError msg))
  /\ unsupported_clauses true t aj win g o lb s
     = Raise (NotImplementedError "Unsupported: SelectStmt.withClause()")
  /\ unsupported_clauses false true aj win g o lb s
     = Raise (NotImplementedError "Unsupported: SelectStmt.topClause()")
  /\ unsupported_clauses false false true win g o lb s
     = Raise (NotImplementedError "Unsupported: SelectStmt.arrayJoinClause()")
  /\ unsupported_clauses false false false true g o lb s
     = Raise (NotImplementedError "Unsupported: SelectStmt.windowClause()")
  /\ unsupported_clauses false false false false true o lb s
     = Raise (NotImplementedError "Unsupported: SelectStmt.groupByClause()")
  /\ unsupported_clauses false false false false false true lb s
     = Raise (NotImplementedError "Unsupported: SelectStmt.orderByClause()")
  /\ unsupported_clauses false false false false false false true s
     = Raise (NotImplementedError "Unsupported: SelectStmt.limitByClause()")
  /\ unsupported_clauses false false false false false false false true
     = Raise (NotImplementedError "Unsupported: SelectStmt.settingsClause()")
  /\ parse_statement psl (select_1_group_by None) None
     = Raise (NotImplementedError "Unsupported: SelectStmt.groupByClause()").
Proof.
  intros Hflags.
  destruct (unsupported_clauses_raise _ _ _ _ _ _ _ _ Hflags) as (msg & Hmsg).
  split; [|split; [|repeat split; reflexivity]].
  - assert (exists e,
               visitSelectStmt psl
                 (SelectStmt w t columnExprList fromClause aj win
                    prewhereClause whereClause g havingClause o lb
                    limitClause s) = Raise e) as (e & He).
    { cbn [visitSelectStmt].
      do 6 (apply bind_raises; intros ?).
      rewrite Hmsg. simpl. eauto. }
    exists e. split; [exact He|]. intros placeholders.
    unfold parse_statement, select_query.
    cbn [visitSelectQuery visitSelectUnionStmt visitSelectStmtWithParens].
    rewrite He. reflexivity.
  - intros q H. exists msg. split; [exact Hmsg|].
    cbn [visitSelectStmt] in *.
    repeat match type of H with
      | (?r ≫= _) = Ok _ =>
          destruct r; cbn [mbind result_bind] in *; [|discriminate]
      end.
    rewrite Hmsg. reflexivity.
Qed.

(** C7 (amended) at [SELECT 1 GROUP BY 1 ORDER BY 1]: the gate reports
    GROUP BY, the first of the two in its order. *)
Lemma unsupported_clauses_fail_closed_witness :
  exists msg,
    unsupported_clauses false false false false true true false false
    = Raise (NotImplementedError msg)
    /\ visitSelectStmt strip_delimiters
         (SelectStmt false false (Some [ColumnsExprColumn (number "1")]) None
            false false None None true None true false None false)
       = Raise (NotImplementedError msg)
    /\ msg = "Unsupported: SelectStmt.groupByClause()".
Proof.
  destruct (unsupported_clauses_fail_closed strip_delimiters
              (Some [ColumnsExprColumn (number "1")]) None None None None None
              false false false false true true false false eq_refl)
    as (_ & Hgate & _).
  destruct (Hgate (select_1_result None None) eq_refl) as (msg & Hmsg & Hstmt).
  exists msg. split; [exact Hmsg|]. split; [exact Hstmt|].
  injection Hmsg as <-. reflexivity.
Defined.

(** ** Placeholders *)

Lemma truthy_lookup (placeholders : gmap string expr) name bound :
  placeholders !! name = Some bound -> truthy (Some placeholders) = true.
Proof.
  intros H. unfold truthy.
  destruct (size placeholders) eqn:E; [|reflexivity].
  apply map_size_empty_inv in E. subst.
  rewrite lookup_empty in H. discriminate.
Qed.

Lemma truthy_non_empty (placeholders : gmap string expr) :
  placeholders <> ∅ -> truthy (Some placeholders) = true.
Proof.
  intros H. unfold truthy.
  destruct (size placeholders) eqn:E; [|reflexivity].
  apply map_size_empty_inv in E. contradiction.
Qed.

(** Substitution leaves no placeholder that the bindings bind, at any
    depth, when the bound expressions hold none themselves. *)
Lemma replace_placeholders_binds_everywhere (m : gmap string expr) :
  (forall name bound,
     m !! name = Some bound -> all_nodes (unbound_node m) bound = true) ->
  forall node, all_nodes (unbound_node m) (replace_placeholders node m) = true.
Proof.
  intros Hm. fix IH 1. intros node.
  destruct node as [?|?|?|field|l r ?|l r ?|exprs|exprs|?|? args
                   |tb ? ? ? c nx|sel fr wh pw hv ? ?];
    cbn [replace_placeholders]; try reflexivity.
  - destruct (m !! field) as [bound|] eqn:E; [exact (Hm _ _ E)|].
    cbn [all_nodes unbound_node]. rewrite E. reflexivity.
  - cbn [all_nodes unbound_node andb]. rewrite !IH. reflexivity.
  - cbn [all_nodes unbound_node andb]. rewrite !IH. reflexivity.
  - cbn [all_nodes unbound_node andb].
    induction exprs as [|x l' IHl]; [reflexivity|].
    cbn [List.map forallb]. rewrite IH, IHl. reflexivity.
  - cbn [all_nodes unbound_node andb].
    induction exprs as [|x l' IHl]; [reflexivity|].
    cbn [List.map forallb]. rewrite IH, IHl. reflexivity.
  - cbn [all_nodes unbound_node andb]. apply IH.
  - cbn [all_nodes unbound_node andb].
    induction args as [|x l' IHl]; [reflexivity|].
    cbn [List.map forallb]. rewrite IH, IHl. reflexivity.
  - cbn [all_nodes unbound_node andb].
    destruct tb, c, nx; cbn [option_map]; rewrite ?IH; reflexivity.
  - cbn [all_nodes unbound_node andb].
    destruct fr, wh, pw, hv; cbn [option_map]; rewrite ?IH;
      rewrite ?andb_true_r;
      (induction sel as [|x l' IHl]; [reflexivity|];
       cbn [List.map forallb]; rewrite IH, IHl; reflexivity).
Qed.

(** Substitution changes nothing in a tree none of whose placeholders is
    bound. *)
Lemma replace_placeholders_unbound (m : gmap string expr) :
  forall node,
    all_nodes (unbound_node m) node = true ->
    replace_placeholders node m = node.
Proof.
  fix IH 1. intros node H.
  destruct node as [?|?|?|field|l r ?|l r ?|exprs|exprs|?|? args
                   |tb ? ? ? c nx|sel fr wh pw hv ? ?];
    cbn [replace_placeholders]; try reflexivity;
    cbn [all_nodes unbound_node andb] in H.
  - destruct (m !! field); [discriminate|reflexivity].
  - apply andb_prop in H as [H1 H2]. rewrite (IH _ H1), (IH _ H2).
    reflexivity.
  - apply andb_prop in H as [H1 H2]. rewrite (IH _ H1), (IH _ H2).
    reflexivity.
  - f_equal. induction exprs as [|x l' IHl]; [reflexivity|].
    cbn [List.map forallb] in *. apply andb_prop in H as [H1 H2].
    rewrite (IH _ H1), (IHl H2). reflexivity.
  - f_equal. induction exprs as [|x l' IHl]; [reflexivity|].
    cbn [List.map forallb] in *. apply andb_prop in H as [H1 H2].
    rewrite (IH _ H1), (IHl H2). reflexivity.
  - rewrite (IH _ H). reflexivity.
  - f_equal. induction args as [|x l' IHl]; [reflexivity|].
    cbn [List.map forallb] in *. apply andb_prop in H as [H1 H2].
    rewrite (IH _ H1), (IHl H2). reflexivity.
  - apply andb_prop in H as [H H3]. apply andb_prop in H as [H1 H2].
    destruct tb, c, nx; cbn [option_map];
      repeat match goal with
        | Hx : all_nodes _ ?x = true |- _ => rewrite (IH x Hx); clear Hx
        end; reflexivity.
  - apply andb_prop in H as [H H5]. apply andb_prop in H as [H H4].
    apply andb_prop in H as [H H3]. apply andb_prop in H as [H1 H2].
    assert (List.map (fun e => replace_placeholders e m) sel = sel) as ->.
    { clear -IH H1. induction sel as [|x l' IHl]; [reflexivity|].
      cbn [List.map forallb] in *. apply andb_prop in H1 as [H1 H1'].
      rewrite (IH _ H1), (IHl H1'). reflexivity. }
    destruct fr, wh, pw, hv; cbn [option_map];
      repeat match goal with
        | Hx : all_nodes _ ?x = true |- _ => rewrite (IH x Hx); clear Hx
        end; reflexivity.
Qed.

(** C9.  With [parse_string_literal] reading the text [{foo}] as [foo],
    the expression [{foo}] converts to [Placeholder("foo")].  Without
    bindings ([None], or the empty dict) both entry points return the
    converter's result as it is, so the placeholder stays.  With non-empty
    bindings both entry points return the converter's result with the
    substitution applied to it: the substitution replaces a bound
    placeholder wherever it stands ([{foo}] alone gives the bound
    expression, [Constant(42)] for [{"foo": Constant(42)}], and
    [SELECT {foo} + 1] gives [SELECT 42 + 1]), leaves no bound placeholder
    at any depth when the bound expressions hold none, and changes nothing
    in a tree whose placeholders are all unbound. *)
Theorem placeholder_round_trip (psl : string -> string) :
  psl "{foo}" = "foo" ->
  visitColumnExpr psl (template "{foo}") = Ok (Placeholder "foo")
  /\ parse_expr psl (template "{foo}") None = Ok (Placeholder "foo")
  /\ parse_expr psl (template "{foo}") (Some ∅) = Ok (Placeholder "foo")
  /\ (forall parse_tree,
        parse_expr psl parse_tree None = visitColumnExpr psl parse_tree
        /\ parse_expr psl parse_tree (Some ∅) = visitColumnExpr psl parse_tree)
  /\ (forall parse_tree,
        parse_statement psl parse_tree None = visitSelectQuery psl parse_tree
        /\ parse_statement psl parse_tree (Some ∅)
           = visitSelectQuery psl parse_tree)
  /\ parse_expr psl (template "{foo}") (Some {[ "foo" := Constant (VInt 42) ]})
     = Ok (Constant (VInt 42))
  /\ (forall (placeholders : gmap string expr) bound,
        placeholders !! "foo" = Some bound ->
        parse_expr psl (template "{foo}") (Some placeholders) = Ok bound)
  /\ (forall (placeholders : gmap string expr),
        placeholders !! "foo" = None ->
        parse_expr psl (template "{foo}") (Some placeholders)
        = Ok (Placeholder "foo"))
  /\ (forall (placeholders : gmap string expr) parse_tree,
        placeholders <> ∅ ->
        parse_expr psl parse_tree (Some placeholders)
        = (node ← visitColumnExpr psl parse_tree;
           Ok (replace_placeholders node placeholders)))
  /\ (forall (placeholders : gmap string expr) parse_tree,
        placeholders <> ∅ ->
        parse_statement psl parse_tree (Some placeholders)
        = (node ← visitSelectQuery psl parse_tree;
           Ok (replace_placeholders node placeholders)))
  /\ parse_statement psl
       (select_query
          (select_stmt
             [ColumnsExprColumn
                (ColumnExprPrecedence2 (template "{foo}") PLUS (number "1"))]
             None None))
       (Some {[ "foo" := Constant (VInt 42) ]})
     = Ok (SelectQuery
             [BinaryOperation (Constant (VInt 42)) (Constant (VInt 1))
                BinaryOperationType.Add]
             None None None None None None)
  /\ (forall (placeholders : gmap string expr) node,
        (forall name bound,
           placeholders !! name = Some bound ->
           all_nodes (unbound_node placeholders) bound = true) ->
        all_nodes (unbound_node placeholders)
          (replace_placeholders node placeholders) = true)
  /\ (forall (placeholders : gmap string expr) node,
        all_nodes (unbound_node placeholders) node = true ->
        replace_placeholders node placeholders = node).
Proof.
  intros Hpsl.
  assert (visitColumnExpr psl (template "{foo}") = Ok (Placeholder "foo"))
    as Hvisit.
  { cbn. unfold visitTemplateString. rewrite Hpsl. reflexivity. }
  assert (forall (placeholders : gmap string expr) bound,
             placeholders !! "foo" = Some bound ->
             parse_expr psl (template "{foo}") (Some placeholders) = Ok bound)
    as Hbound.
  { intros m bound Hm. unfold parse_expr. rewrite Hvisit.
    cbn [mbind result_bind]. unfold apply_placeholders.
    rewrite (truthy_lookup m "foo" bound Hm).
    cbn [default from_option id replace_placeholders]. rewrite Hm.
    reflexivity. }
  assert (forall (placeholders : gmap string expr) parse_tree,
             placeholders <> ∅ ->
             parse_statement psl parse_tree (Some placeholders)
             = (node ← visitSelectQuery psl parse_tree;
                Ok (replace_placeholders node placeholders))) as Hstmt.
  { intros m tree Hm. unfold parse_statement, apply_placeholders.
    rewrite (truthy_non_empty m Hm). reflexivity. }
  split; [exact Hvisit|].
  split; [unfold parse_expr; rewrite Hvisit; reflexivity|].
  split; [unfold parse_expr; rewrite Hvisit; reflexivity|].
  split.
  { intros tree. unfold parse_expr.
    destruct (visitColumnExpr psl tree); split; reflexivity. }
  split.
  { intros tree. unfold parse_statement.
    destruct (visitSelectQuery psl tree); split; reflexivity. }
  split.
  { apply Hbound. apply lookup_singleton_eq. }
  split; [exact Hbound|].
  split.
  { intros m Hm. unfold parse_expr. rewrite Hvisit.
    cbn [mbind result_bind]. unfold apply_placeholders.
    destruct (truthy (Some m)); [|reflexivity].
    cbn [default from_option id replace_placeholders]. rewrite Hm.
    reflexivity. }
  split.
  { intros m tree Hm. unfold parse_expr, apply_placeholders.
    rewrite (truthy_non_empty m Hm). reflexivity. }
  split; [exact Hstmt|].
  split.
  { rewrite Hstmt by (apply insert_non_empty).
    unfold select_query, select_stmt.
    cbn [visitSelectQuery visitSelectUnionStmt visitSelectStmtWithParens
         visitSelectStmt mapM visitColumnsExpr visitColumnExpr precedence2_op].
    rewrite Hvisit. reflexivity. }
  split.
  - intros m node Hm. exact (replace_placeholders_binds_everywhere m Hm node).
  - exact replace_placeholders_unbound.
Qed.

(** C9 with the delimiter-stripping reading of [{foo}]. *)
Lemma placeholder_round_trip_witness :
  strip_delimiters "{foo}" = "foo"
  /\ parse_expr strip_delimiters (template "{foo}") None
     = Ok (Placeholder "foo")
  /\ parse_expr strip_delimiters (template "{foo}")
       (Some {[ "foo" := Constant (VInt 42) ]})
     = Ok (Constant (VInt 42)).
Proof.
  split; [reflexivity|].
  pose proof (placeholder_round_trip strip_delimiters eq_refl)
    as (_ & Hnone & _ & _ & _ & Hbound & _).
  split; [exact Hnone | exact Hbound].
Defined.

(** * Further properties of the converter *)

(** ** Shapes of results *)

Lemma node_ok_wide (e : expr) : node_ok e = true -> wide_node e = true.
Proof.
  unfold node_ok. intros H. apply andb_prop in H as [_ H].
  destruct e; try reflexivity; exact H.
Qed.

(** X1.  Every [And] and every [Or] node of a converted expression or
    statement has at least two elements. *)
Theorem boolean_nodes_have_two_elements (psl : string -> string) :
  (forall ctx e,
     visitColumnExpr psl ctx = Ok e -> all_nodes wide_node e = true)
  /\ (forall ctx e,
        visitSelectQuery psl ctx = Ok e -> all_nodes wide_node e = true).
Proof.
  split; intros ctx e H; apply (all_nodes_impl node_ok);
    try exact node_ok_wide.
  - exact (visitColumnExpr_well_formed psl ctx e H).
  - exact (visitSelectQuery_well_formed psl ctx e H).
Qed.

(** Whatever holds of every converted [selectStmt] holds of every
    converted union and parenthesised statement. *)
Lemma visitSelectUnionStmt_from_stmt psl (P : expr -> Prop)
    (HP : forall ctx a, visitSelectStmt psl ctx = Ok a -> P a)
    (ctx : SelectUnionStmtContext) :
  forall a, visitSelectUnionStmt psl ctx = Ok a -> P a
with visitSelectStmtWithParens_from_stmt psl (P : expr -> Prop)
    (HP : forall ctx a, visitSelectStmt psl ctx = Ok a -> P a)
    (ctx : SelectStmtWithParensContext) :
  forall a, visitSelectStmtWithParens psl ctx = Ok a -> P a.
Proof.
  - destruct ctx as [selects]; intros a H; cbn [visitSelectUnionStmt] in H.
    destruct selects as [|select [|]]; try discriminate.
    exact (visitSelectStmtWithParens_from_stmt psl P HP _ _ H).
  - destruct ctx; intros a H; cbn [visitSelectStmtWithParens] in H.
    + exact (HP _ _ H).
    + exact (visitSelectUnionStmt_from_stmt psl P HP _ _ H).
Qed.

Lemma visitSelectQuery_from_stmt psl (P : expr -> Prop) :
  (forall ctx a, visitSelectStmt psl ctx = Ok a -> P a) ->
  forall ctx a, visitSelectQuery psl ctx = Ok a -> P a.
Proof.
  intros HP [u|s] a H; cbn [visitSelectQuery] in H.
  - exact (visitSelectUnionStmt_from_stmt psl P HP _ _ H).
  - exact (HP _ _ H).
Qed.

Lemma integer_constant_Ok clause node v :
  integer_constant clause node = Ok v ->
  node = Constant v /\ isinstance_int v = true.
Proof.
  destruct node; try discriminate. simpl.
  destruct (isinstance_int v0) eqn:E; [intros [= <-]; auto | discriminate].
Qed.

Lemma visitSelectStmt_limits_ok psl ctx a :
  visitSelectStmt psl ctx = Ok a -> limits_ok a = true.
Proof.
  destruct ctx; cbn [visitSelectStmt]; intros H.
  peel H. injection H as <-.
  destruct limitClause as [[c0 [c1|]]|]; peel E4; injection E4 as <-;
    repeat match goal with
      | Hi : integer_constant _ _ = Ok _ |- _ =>
          apply integer_constant_Ok in Hi as [_ Hi]
      end;
    simpl;
    repeat match goal with
      | Hi : isinstance_int _ = true |- _ => rewrite Hi; clear Hi
      end;
    reflexivity.
Qed.

(** X2.  A statement that converts converts to a [SelectQuery], through
    any nesting of unions and parentheses; its [limit] and [offset], when
    set, hold values that pass [isinstance(value, int)] (never a float, a
    string or [None]), and [offset] is set only when [limit] is. *)
Theorem statement_is_select_query_with_integer_limits
    (psl : string -> string) (ctx : SelectQueryContext) (a : expr) :
  visitSelectQuery psl ctx = Ok a ->
  exists select select_from where_ prewhere having limit offset,
    a = SelectQuery select select_from where_ prewhere having limit offset
    /\ (forall v, limit = Some v -> isinstance_int v = true)
    /\ (forall v, offset = Some v ->
                  isinstance_int v = true /\ exists l, limit = Some l).
Proof.
  intros H.
  pose proof (visitSelectQuery_from_stmt psl (fun a => limits_ok a = true)
                (visitSelectStmt_limits_ok psl) ctx a H) as Hl.
  destruct a; try discriminate.
  exists select, select_from, where_, prewhere, having, limit, offset.
  split; [reflexivity|].
  unfold limits_ok in Hl.
  apply andb_prop in Hl as [Hl Hboth]. apply andb_prop in Hl as [Hlim Hoff].
  split.
  - intros v ->. exact Hlim.
  - intros v ->. split; [exact Hoff|].
    destruct limit as [l|]; [eauto|]. discriminate.
Qed.

(** X2 at [SELECT 1 LIMIT 5 OFFSET 2]. *)
Lemma statement_is_select_query_with_integer_limits_witness :
  exists select select_from where_ prewhere having limit offset,
    select_1_result (Some (VInt 5)) (Some (VInt 2))
    = SelectQuery select select_from where_ prewhere having limit offset
    /\ (forall v, limit = Some v -> isinstance_int v = true)
    /\ (forall v, offset = Some v ->
                  isinstance_int v = true /\ exists l, limit = Some l).
Proof.
  exact (statement_is_select_query_with_integer_limits strip_delimiters
           (select_1_limit (number "5") (Some (number "2")))
           (select_1_result (Some (VInt 5)) (Some (VInt 2))) eq_refl).
Defined.

(** ** Identifiers and placeholders *)

Lemma expr_field_visitIdentifier psl ctx :
  expr_field (visitIdentifier psl ctx) = Ok (identifier_field psl ctx).
Proof. destruct ctx; reflexivity. Qed.

Lemma mapM_expr_field_identifiers psl (l : list IdentifierContext) :
  mapM expr_field (map (visitIdentifier psl) l)
  = Ok (map (identifier_field psl) l).
Proof.
  induction l as [|x l IH]; [reflexivity|].
  cbn [map mapM]. rewrite expr_field_visitIdentifier.
  cbn [mbind result_bind]. fold (@mapM expr string expr_field).
  rewrite IH. reflexivity.
Qed.

Lemma visitNestedIdentifier_dotted psl first second rest :
  visitNestedIdentifier psl (NestedIdentifier first (second :: rest))
  = Ok (FieldAccessChain
          (map VStr (map (identifier_field psl) (first :: second :: rest)))).
Proof.
  unfold visitNestedIdentifier, nested_identifier.
  cbn [nested_first nested_rest].
  pose proof (mapM_expr_field_identifiers psl (first :: second :: rest)) as E.
  cbn [map] in *. rewrite E. reflexivity.
Qed.

(** X4.  A nested identifier of two or more segments converts to the
    chain of its segments' names, a template segment contributing its
    parsed name as a plain string: no placeholder survives inside a dotted
    name.  A [Placeholder] comes out of a column identifier only when it is
    a single template segment without a table prefix; with a table prefix
    a template segment is rejected. *)
Theorem placeholders_only_from_bare_templates (psl : string -> string) :
  (forall first second rest,
     visitNestedIdentifier psl (NestedIdentifier first (second :: rest))
     = Ok (FieldAccessChain
             (map VStr (map (identifier_field psl) (first :: second :: rest)))))
  /\ (forall ctx field,
        visitColumnIdentifier psl ctx = Ok (Placeholder field) ->
        exists text,
          ctx = ColumnIdentifier None
                  (NestedIdentifier (IdentifierTemplateString text) [])
          /\ field = psl text)
  /\ (forall tableIdentifier text,
        exists msg,
          visitColumnIdentifier psl
            (ColumnIdentifier (Some tableIdentifier)
               (NestedIdentifier (IdentifierTemplateString text) []))
          = Raise (NotImplementedError msg)).
Proof.
  split; [|split].
  - exact (visitNestedIdentifier_dotted psl).
  - intros [[t|] [first rest]] field H; unfold visitColumnIdentifier in H;
      cbn [column_tableIdentifier column_nestedIdentifier fmap option_fmap
           option_map] in H.
    + apply bind_Ok in H as (nested & _ & H).
      apply bind_Ok in H as (c1 & _ & H).
      apply bind_Ok in H as (c2 & _ & H). discriminate.
    + apply bind_Ok in H as (nested & E & H).
      assert (nested = Placeholder field) as ->.
      { destruct nested; try (injection H as <-; reflexivity).
        repeat match type of H with
          | context [if ?b then _ else _] => destruct b
          end; discriminate. }
      destruct rest as [|second rest].
      * destruct first as [text|text]; [discriminate|].
        injection E as <-. eauto.
      * rewrite visitNestedIdentifier_dotted in E. discriminate.
  - intros [[d|] i] text; eexists; reflexivity.
Qed.

(** X4 at [{foo}]. *)
Lemma placeholders_only_from_bare_templates_witness :
  exists text,
    ColumnIdentifier None
      (NestedIdentifier (IdentifierTemplateString "{foo}") [])
    = ColumnIdentifier None
        (NestedIdentifier (IdentifierTemplateString text) [])
    /\ "foo" = strip_delimiters text.
Proof.
  exact (proj1 (proj2 (placeholders_only_from_bare_templates strip_delimiters))
           (ColumnIdentifier None
              (NestedIdentifier (IdentifierTemplateString "{foo}") []))
           "foo" eq_refl).
Defined.

(** ** Lists of expressions *)

Lemma mapM_Forall2 {A B} (f : A -> result B) (l : list A) (ys : list B) :
  mapM f l = Ok ys -> Forall2 (fun x y => f x = Ok y) l ys.
Proof.
  revert ys. induction l as [|x l IH]; simpl; intros ys H.
  - injection H as <-. constructor.
  - apply bind_Ok in H as (y & Hy & H).
    apply bind_Ok in H as (ys' & Hys & H).
    injection H as <-. constructor; auto.
Qed.

Lemma mapM_In_Ok {A B} (f : A -> result B) (l : list A) (ys : list B) x :
  mapM f l = Ok ys -> List.In x l -> exists y, f x = Ok y.
Proof.
  revert ys. induction l as [|x' l IH]; simpl; intros ys H Hin; [tauto|].
  apply bind_Ok in H as (y & Hy & H).
  apply bind_Ok in H as (ys' & Hys & H).
  destruct Hin as [->|Hin]; eauto.
Qed.

(** X5.  A converted call keeps the function name and has one argument
    per argument production, each the conversion of the production at the
    same position; without an argument list it has no arguments.  A
    converted statement's [select] has, position by position, the
    conversions of the projection list. *)
Theorem arguments_and_projections_in_order (psl : string -> string) :
  (forall identifier args a,
     visitColumnExpr psl (ColumnExprFunction identifier None (Some args))
     = Ok a ->
     exists converted,
       a = Call (identifier_getText identifier) converted
       /\ Forall2 (fun c e => visitColumnArgExpr psl c = Ok e) args converted
       /\ length converted = length args)
  /\ (forall identifier,
        visitColumnExpr psl (ColumnExprFunction identifier None None)
        = Ok (Call (identifier_getText identifier) []))
  /\ (forall w t columns fromClause aj win prewhereClause whereClause g
        havingClause o lb limitClause s
        select select_from where_ prewhere having limit offset,
        visitSelectStmt psl
          (SelectStmt w t (Some columns) fromClause aj win prewhereClause
             whereClause g havingClause o lb limitClause s)
        = Ok (SelectQuery select select_from where_ prewhere having
                limit offset) ->
        Forall2 (fun c e => visitColumnsExpr psl c = Ok e) columns select
        /\ length select = length columns).
Proof.
  split; [|split].
  - intros identifier args a H. cbn [visitColumnExpr] in H.
    peel H. injection H as <-. exists a0.
    split; [reflexivity|]. split.
    + exact (mapM_Forall2 _ _ _ E).
    + exact (mapM_length _ _ _ E).
  - reflexivity.
  - intros w t columns fromClause aj win prewhereClause whereClause g
      havingClause o lb limitClause s select select_from where_ prewhere
      having limit offset H.
    cbn [visitSelectStmt] in H. peel H. injection H as <- _ _ _ _ _ _.
    split.
    + exact (mapM_Forall2 _ _ _ E).
    + exact (mapM_length _ _ _ E).
Qed.

(** X5 at [f(a, 1)]. *)
Lemma arguments_and_projections_in_order_witness :
  exists converted,
    Call "f" [FieldAccess "a"; Constant (VInt 1)] = Call "f" converted
    /\ Forall2 (fun c e => visitColumnArgExpr strip_delimiters c = Ok e)
         [ColumnArgExprColumn (column "a"); ColumnArgExprColumn (number "1")]
         converted
    /\ length converted = 2%nat.
Proof.
  exact (proj1 (arguments_and_projections_in_order strip_delimiters)
           (IdentifierToken "f")
           [ColumnArgExprColumn (column "a"); ColumnArgExprColumn (number "1")]
           (Call "f" [FieldAccess "a"; Constant (VInt 1)]) eq_refl).
Defined.

(** ** Literal limits *)

Lemma visitLiteral_Constant psl literal node :
  visitLiteral psl literal = Ok node ->
  match literal with
  | LiteralNull => node = Constant VNone
  | LiteralString text => node = Constant (VStr (psl text))
  | LiteralNumber text =>
      if contains_dot text then node = Constant (VFloat text)
      else exists z, python_int text = Some z /\ node = Constant (VInt z)
  end.
Proof.
  destruct literal as [|text|text]; cbn [visitLiteral];
    try (intros [= <-]; reflexivity).
  unfold visitNumberLiteral. destruct (contains_dot text).
  - destruct (python_float_ok text); [intros [= <-]; reflexivity|discriminate].
  - destruct (python_int text) as [z|]; [intros [= <-]; eauto|discriminate].
Qed.

(** X6.  A statement whose LIMIT (or OFFSET) is a literal converts only
    when that literal is a number written without a decimal point, and the
    [limit] ([offset]) is then its integer value: [NULL], a string and any
    number with a decimal point, [1.0] included, are never accepted. *)
Theorem literal_limit_is_dot_free_integer (psl : string -> string)
    (w t : bool) (columnExprList : option (list ColumnsExprContext))
    (fromClause : option JoinExprContext) (aj win : bool)
    (prewhereClause whereClause : option ColumnExprContext) (g : bool)
    (havingClause : option ColumnExprContext) (o lb : bool)
    (limit_literal : LiteralContext) (columnExpr1 : option ColumnExprContext)
    (s : bool) (a : expr) :
  visitSelectStmt psl
    (SelectStmt w t columnExprList fromClause aj win prewhereClause
       whereClause g havingClause o lb
       (Some (LimitExpr (ColumnExprLiteral limit_literal) columnExpr1)) s)
  = Ok a ->
  (exists text z select select_from where_ prewhere having offset,
     limit_literal = LiteralNumber text
     /\ contains_dot text = false
     /\ python_int text = Some z
     /\ a = SelectQuery select select_from where_ prewhere having
              (Some (VInt z)) offset)
  /\ (forall offset_literal,
        columnExpr1 = Some (ColumnExprLiteral offset_literal) ->
        exists text z select select_from where_ prewhere having limit,
          offset_literal = LiteralNumber text
          /\ contains_dot text = false
          /\ python_int text = Some z
          /\ a = SelectQuery select select_from where_ prewhere having
                   limit (Some (VInt z))).
Proof.
  intros H. cbn [visitSelectStmt] in H. peel H. injection H as <-.
  assert (forall literal node clause v,
             visitLiteral psl literal = Ok node ->
             integer_constant clause node = Ok v ->
             exists text z,
               literal = LiteralNumber text /\ contains_dot text = false
               /\ python_int text = Some z /\ v = VInt z) as Hlit.
  { intros literal node clause v Hv Hi.
    apply visitLiteral_Constant in Hv.
    apply integer_constant_Ok in Hi as [-> Hint].
    destruct literal as [|text|text].
    - injection Hv as ->. discriminate.
    - injection Hv as ->. discriminate.
    - destruct (contains_dot text) eqn:Hdot.
      + injection Hv as ->. discriminate.
      + destruct Hv as (z & Hz & [= ->]). eauto 6. }
  peel E4. cbn [visitColumnExpr] in *.
  match goal with
  | Hv : visitLiteral psl limit_literal = Ok ?n,
    Hi : integer_constant "LIMIT" ?n = Ok _ |- _ =>
      destruct (Hlit _ _ _ _ Hv Hi) as (text & z & -> & Hdot & Hz & ->)
  end.
  split.
  - destruct columnExpr1 as [c1|]; peel E4; injection E4 as <-;
      cbn [fst snd]; eauto 12.
  - intros offset_literal ->. peel E4. injection E4 as <-.
    cbn [visitColumnExpr fst snd] in *.
    match goal with
    | Hv : visitLiteral psl offset_literal = Ok ?n,
      Hi : integer_constant "OFFSET" ?n = Ok _ |- _ =>
        destruct (Hlit _ _ _ _ Hv Hi) as (text' & z' & -> & Hdot' & Hz' & ->)
    end.
    eauto 12.
Qed.

(** X6 at [SELECT 1 LIMIT 5]. *)
Lemma literal_limit_is_dot_free_integer_witness :
  exists text z select select_from where_ prewhere having offset,
    LiteralNumber "5" = LiteralNumber text
    /\ contains_dot text = false
    /\ python_int text = Some z
    /\ select_1_result (Some (VInt 5)) None
       = SelectQuery select select_from where_ prewhere having
           (Some (VInt z)) offset.
Proof.
  exact (proj1 (literal_limit_is_dot_free_integer strip_delimiters
                  false false (Some [ColumnsExprColumn (number "1")]) None
                  false false None None false None false false
                  (LiteralNumber "5") None false
                  (select_1_result (Some (VInt 5)) None) eq_refl)).
Defined.

(** ** Join trees *)

Lemma visitTableExpr_JoinExpr psl ctx t tf al ty c next :
  visitTableExpr psl ctx = Ok (JoinExpr t tf al ty c next) ->
  exists inner name table,
    ctx = TableExprAlias inner name
    /\ visitTableExpr psl inner = Ok table
    /\ t = Some table /\ tf = None /\ al = Some name
    /\ ty = None /\ c = None /\ next = None.
Proof.
  destruct ctx; cbn [visitTableExpr]; intros H.
  - destruct tableIdentifier as [[d|] i]; discriminate.
  - discriminate.
  - apply visitSelectUnionStmt_is_select in H. discriminate.
  - peel H. injection H as <- <- <- <- <- <-.
    exists ctx, alias, a. repeat split; auto.
Qed.

Lemma visitJoinExprTable_node psl tableExpr FINAL j :
  visitJoinExpr psl (JoinExprTable tableExpr FINAL false) = Ok j ->
  exists table alias,
    j = JoinExpr (Some table) (if FINAL then Some true else None) alias
          None None None
    /\ match tableExpr with
       | TableExprAlias inner name =>
           alias = Some name /\ visitTableExpr psl inner = Ok table
       | _ => alias = None /\ visitTableExpr psl tableExpr = Ok table
       end.
Proof.
  cbn [visitJoinExpr]. intros H. peel H.
  destruct a as [?|?|?|?|? ? ?|? ? ?|?|?|?|? ?|t tf al ty c nx|? ? ? ? ? ? ?];
    try (injection H as <-; eexists _, None; split; [reflexivity|];
         destruct tableExpr; try (split; [reflexivity|assumption]);
         cbn [visitTableExpr] in E; peel E; discriminate).
  destruct (visitTableExpr_JoinExpr _ _ _ _ _ _ _ _ E)
    as (inner & name & table & -> & Ei & -> & -> & -> & -> & -> & ->).
  injection H as <-. exists table, (Some name). auto.
Qed.

(** X7.  A table production converts to a single-node chain: the node has
    no join type, no constraint and no forward link, its [table_final] is
    [True] when FINAL is written and [None] otherwise, and it carries an
    alias exactly when the table expression is an aliased one, the aliased
    expression's conversion then being the node's table. *)
Theorem table_reference_is_single_node (psl : string -> string)
    (tableExpr : TableExprContext) (FINAL : bool) (j : expr) :
  visitJoinExpr psl (JoinExprTable tableExpr FINAL false) = Ok j ->
  exists table alias,
    j = JoinExpr (Some table) (if FINAL then Some true else None) alias
          None None None
    /\ join_steps j
       = [JoinStep (Some table) (if FINAL then Some true else None) alias
            None None]
    /\ match tableExpr with
       | TableExprAlias inner name =>
           alias = Some name /\ visitTableExpr psl inner = Ok table
       | _ => alias = None /\ visitTableExpr psl tableExpr = Ok table
       end.
Proof.
  intros H.
  destruct (visitJoinExprTable_node psl tableExpr FINAL j H)
    as (table & alias & -> & Hshape).
  exists table, alias. repeat split; auto.
Qed.

(** X7 at [events AS e FINAL]. *)
Lemma table_reference_is_single_node_witness :
  exists table alias,
    JoinExpr (Some (FieldAccess "events")) (Some true) (Some "e")
      None None None
    = JoinExpr (Some table) (Some true) alias None None None
    /\ join_steps
         (JoinExpr (Some (FieldAccess "events")) (Some true) (Some "e")
            None None None)
       = [JoinStep (Some table) (Some true) alias None None]
    /\ alias = Some "e"
    /\ visitTableExpr strip_delimiters
         (TableExprIdentifier (TableIdentifier None (IdentifierToken "events")))
       = Ok table.
Proof.
  destruct (table_reference_is_single_node strip_delimiters
              (TableExprAlias
                 (TableExprIdentifier
                    (TableIdentifier None (IdentifierToken "events")))
                 "e")
              true
              (JoinExpr (Some (FieldAccess "events")) (Some true) (Some "e")
                 None None None)
              eq_refl)
    as (table & alias & Hj & Hsteps & Halias & Htable).
  exists table, alias. auto.
Defined.

Lemma chain_typed_cons s (steps : list join_step) :
  steps <> [] ->
  chain_typed (s :: steps)
  = bool_decide (is_Some (step_join_type s))
    && bool_decide (is_Some (step_join_constraint s))
    && chain_typed steps.
Proof. destruct steps; [congruence|reflexivity]. Qed.

Lemma chain_typed_attach init last join_type join_constraint steps2 :
  chain_typed (init ++ [last]) = true ->
  chain_typed steps2 = true ->
  chain_typed (init ++ [with_join last join_type join_constraint] ++ steps2)
  = true.
Proof.
  intros H1 H2. induction init as [|s init IH].
  - cbn [app]. rewrite chain_typed_cons; [|destruct steps2; discriminate].
    rewrite H2. reflexivity.
  - cbn [app] in *.
    rewrite chain_typed_cons in H1 by (destruct init; discriminate).
    rewrite chain_typed_cons by (destruct init; discriminate).
    apply andb_prop in H1 as [H1 H1']. rewrite H1, (IH H1'). reflexivity.
Qed.

Lemma visitJoinExpr_chain_typed psl (ctx : JoinExprContext) :
  forall j, visitJoinExpr psl ctx = Ok j -> chain_typed (join_steps j) = true.
Proof.
  induction ctx as [j0 IH0 GLOBAL LOCAL op j1 IH1 cc| |t FINAL sample|j' IH];
    intros j H.
  - cbn [visitJoinExpr] in H.
    destruct GLOBAL; [discriminate|]. destruct LOCAL; [discriminate|].
    peel H. specialize (IH0 _ E). specialize (IH1 _ E0).
    pose proof (visitJoinExpr_is_join_chain psl _ _ E) as Hc.
    destruct (attach_join_steps a0 a2 a1 a Hc)
      as (r & init & last & Er & S1 & Sr & _).
    rewrite Er in H. injection H as <-. rewrite Sr.
    apply chain_typed_attach; [rewrite <- S1|]; assumption.
  - discriminate.
  - destruct sample; [discriminate|].
    destruct (visitJoinExprTable_node psl t FINAL j H) as (tb & al & -> & _).
    reflexivity.
  - exact (IH j H).
Qed.

(** X8.  In the chain a join expression converts to, every node but the
    last carries both a join type and a constraint, and the last node, the
    only one without a forward link, carries neither. *)
Theorem join_chain_types_on_non_tail_nodes (psl : string -> string)
    (ctx : JoinExprContext) (j : expr) :
  visitJoinExpr psl ctx = Ok j ->
  is_join_chain j = true /\ chain_typed (join_steps j) = true.
Proof.
  intros H. split.
  - exact (visitJoinExpr_is_join_chain psl ctx j H).
  - exact (visitJoinExpr_chain_typed psl ctx j H).
Qed.

(** X8 at [a JOIN b ON a.id = b.id JOIN c ON b.id = c.id]. *)
Lemma join_chain_types_on_non_tail_nodes_witness :
  exists j,
    visitJoinExpr strip_delimiters (three_way_join true) = Ok j
    /\ is_join_chain j = true /\ chain_typed (join_steps j) = true.
Proof.
  eexists. split; [reflexivity|].
  exact (join_chain_types_on_non_tail_nodes strip_delimiters
           (three_way_join true) _ eq_refl).
Defined.

Lemma mapM_app {A B} (f : A -> result B) l1 l2 ys1 ys2 :
  mapM f l1 = Ok ys1 -> mapM f l2 = Ok ys2 ->
  mapM f (l1 ++ l2) = Ok (ys1 ++ ys2).
Proof.
  revert ys1. induction l1 as [|x l1 IH]; simpl; intros ys1 H1 H2.
  - injection H1 as <-. exact H2.
  - apply bind_Ok in H1 as (y & Hy & H1).
    apply bind_Ok in H1 as (ys' & Hys & H1).
    injection H1 as <-. rewrite Hy. simpl.
    rewrite (IH _ Hys H2). reflexivity.
Qed.

Lemma step_key_with_join s join_type join_constraint :
  step_key (with_join s join_type join_constraint) = step_key s.
Proof. reflexivity. Qed.

(** X9.  The chain a join tree converts to lists the tree's table
    productions from left to right, whatever the nesting and the
    parentheses: each production converts on its own, the chain has one
    node per production, and node by node the table, [table_final] and
    alias are those of the production's own conversion. *)
Theorem join_chain_lists_tables_left_to_right (psl : string -> string)
    (ctx : JoinExprContext) (j : expr) :
  visitJoinExpr psl ctx = Ok j ->
  exists nodes,
    mapM (visitJoinExpr psl) (join_leaves ctx) = Ok nodes
    /\ map step_key (join_steps j)
       = flat_map (fun node => map step_key (join_steps node)) nodes
    /\ length (join_steps j) = length (join_leaves ctx).
Proof.
  revert j.
  induction ctx as [j0 IH0 GLOBAL LOCAL op j1 IH1 cc| |t FINAL sample|j' IH];
    intros j H.
  - cbn [visitJoinExpr] in H.
    destruct GLOBAL; [discriminate|]. destruct LOCAL; [discriminate|].
    peel H.
    destruct (IH0 _ E) as (nodes0 & M0 & K0 & L0).
    destruct (IH1 _ E0) as (nodes1 & M1 & K1 & L1).
    pose proof (visitJoinExpr_is_join_chain psl _ _ E) as Hc.
    destruct (attach_join_steps a0 a2 a1 a Hc)
      as (r & init & last & Er & S1 & Sr & _).
    rewrite Er in H. injection H as <-.
    exists (nodes0 ++ nodes1). cbn [join_leaves].
    split; [exact (mapM_app _ _ _ _ _ M0 M1)|]. split.
    + rewrite flat_map_app, <- K0, <- K1, Sr, S1, !map_app.
      cbn [map]. rewrite step_key_with_join, <- app_assoc. reflexivity.
    + rewrite length_app, <- L0, <- L1, Sr, S1, !length_app.
      cbn [length]. lia.
  - discriminate.
  - destruct sample; [discriminate|].
    exists [j]. cbn [join_leaves mapM]. rewrite H.
    cbn [mbind result_bind flat_map]. rewrite app_nil_r.
    split; [reflexivity|]. split; [reflexivity|].
    destruct (visitJoinExprTable_node psl t FINAL j H) as (tb & al & -> & _).
    reflexivity.
  - exact (IH j H).
Qed.

(** X9 at [a JOIN (b JOIN c ON b.id = c.id) ON a.id = b.id]. *)
Lemma join_chain_lists_tables_left_to_right_witness :
  exists j nodes,
    visitJoinExpr strip_delimiters
      (JoinExprOp (table "a") false false None
         (JoinExprParens
            (JoinExprOp (table "b") false false None (table "c")
               (on_eq (dotted true "b" "id") (dotted true "c" "id"))))
         (on_eq (dotted true "a" "id") (dotted true "b" "id"))) = Ok j
    /\ mapM (visitJoinExpr strip_delimiters) [table "a"; table "b"; table "c"]
       = Ok nodes
    /\ map step_key (join_steps j)
       = flat_map (fun node => map step_key (join_steps node)) nodes
    /\ length (join_steps j) = 3%nat.
Proof.
  eexists.
  destruct (join_chain_lists_tables_left_to_right strip_delimiters
              (JoinExprOp (table "a") false false None
                 (JoinExprParens
                    (JoinExprOp (table "b") false false None (table "c")
                       (on_eq (dotted true "b" "id") (dotted true "c" "id"))))
                 (on_eq (dotted true "a" "id") (dotted true "b" "id")))
              _ eq_refl) as (nodes & Hm & Hk & Hl).
  exists nodes. split; [reflexivity|]. auto.
Defined.

(** ** Failure *)

Lemma operand_converts psl child parent a :
  operand child parent ->
  visitColumnExpr psl parent = Ok a ->
  exists b, visitColumnExpr psl child = Ok b.
Proof.
  intros Hop H. destruct Hop; cbn [visitColumnExpr] in H;
    try (peel H; eauto; fail).
  destruct columnExprList; [discriminate|]. peel H.
  destruct (mapM_In_Ok _ _ _ _ E H0) as (y & Hy). eauto.
Qed.

(** X10.  Conversion is all or nothing: when an expression converts, so
    does every expression occurring in it as an operand or a call argument
    at any depth, and so does everything occurring in a converted
    statement's WHERE, PREWHERE or HAVING expression.  Hence no production
    the converter rejects can occur anywhere in an expression that
    converts. *)
Theorem conversion_needs_every_operand (psl : string -> string)
    (inner outer : ColumnExprContext) :
  occurs_in inner outer ->
  (forall a,
     visitColumnExpr psl outer = Ok a ->
     (exists b, visitColumnExpr psl inner = Ok b)
     /\ forall production, inner <> ColumnExprUnsupported production)
  /\ (forall w t columnExprList fromClause aj win prewhereClause whereClause
        g havingClause o lb limitClause s q,
        whereClause = Some outer \/ prewhereClause = Some outer
        \/ havingClause = Some outer ->
        visitSelectStmt psl
          (SelectStmt w t columnExprList fromClause aj win prewhereClause
             whereClause g havingClause o lb limitClause s) = Ok q ->
        exists b, visitColumnExpr psl inner = Ok b).
Proof.
  intros Hocc.
  assert (forall a, visitColumnExpr psl outer = Ok a ->
                    exists b, visitColumnExpr psl inner = Ok b) as Hconv.
  { induction Hocc as [|middle outer Hocc IH Hop]; [eauto|].
    intros a H. destruct (operand_converts psl _ _ _ Hop H) as (m & Hm).
    exact (IH m Hm). }
  split.
  - intros a H. split; [exact (Hconv a H)|].
    intros production ->. destruct (Hconv a H) as (b & Hb). discriminate.
  - intros w t columnExprList fromClause aj win prewhereClause whereClause
      g havingClause o lb limitClause s q Hclause H.
    cbn [visitSelectStmt] in H. peel H.
    destruct Hclause as [ -> | [ -> | -> ] ];
      match goal with
      | Hf : Some <$> visitColumnExpr psl outer = Ok _ |- _ =>
          apply fmap_Ok in Hf as (x & Hx & _); exact (Hconv x Hx)
      end.
Qed.

(** X10 at [a AND f(b + 1)], whose operand [1] converts. *)
Lemma conversion_needs_every_operand_witness :
  (exists b, visitColumnExpr strip_delimiters (number "1") = Ok b)
  /\ forall production, number "1" <> ColumnExprUnsupported production.
Proof.
  refine (proj1 (conversion_needs_every_operand strip_delimiters
                   (number "1")
                   (ColumnExprAnd (column "a")
                      (ColumnExprFunction (IdentifierToken "f") None
                         (Some [ColumnArgExprColumn
                                  (ColumnExprPrecedence2 (column "b") PLUS
                                     (number "1"))])))
                   _)
            (And [FieldAccess "a";
                  Call "f" [BinaryOperation (FieldAccess "b")
                              (Constant (VInt 1)) BinaryOperationType.Add]])
            eq_refl).
  eapply occurs_below; [|apply operand_and_r].
  eapply occurs_below; [|apply operand_arg; left; reflexivity].
  eapply occurs_below; [|apply operand_p2_r].
  apply occurs_here.
Defined.

Lemma bind_Raise {A B} (r : result A) (k : A -> result B) (e : exn) :
  r ≫= k = Raise e -> r = Raise e \/ exists a, r = Ok a /\ k a = Raise e.
Proof.
  destruct r as [a|e']; simpl; intros H;
    [right; exists a; auto | left; injection H as <-; reflexivity].
Qed.

Lemma fmap_Raise {A B} (f : A -> B) (r : result A) (e : exn) :
  f <$> r = Raise e -> r = Raise e.
Proof. destruct r; simpl; congruence. Qed.

Lemma mapM_Raise {A B} (f : A -> result B) (P : exn -> Prop) (l : list A) :
  Forall (fun x => forall e, f x = Raise e -> P e) l ->
  forall e, mapM f l = Raise e -> P e.
Proof.
  induction 1 as [|x l Hx _ IH]; simpl; intros e H; [discriminate|].
  apply bind_Raise in H as [H|(y & _ & H)]; [exact (Hx e H)|].
  apply bind_Raise in H as [H|(ys & _ & H)]; [exact (IH e H)|discriminate].
Qed.

(** Split a failed computation into the step that failed. *)
Ltac split_raise H :=
  repeat match type of H with
    | (_ ≫= _) = Raise _ =>
        let a := fresh "a" in
        let E := fresh "E" in
        apply bind_Raise in H as [H|(a & E & H)]
    end.

Lemma visitNestedIdentifier_Ok psl ctx :
  exists a, visitNestedIdentifier psl ctx = Ok a.
Proof.
  destruct (visitNestedIdentifier_cases psl ctx) as [(_ & ->)|(c & -> & _)];
    eauto.
Qed.

Lemma visitColumnIdentifier_errors psl ctx e :
  visitColumnIdentifier psl ctx = Raise e -> converter_error e = true.
Proof.
  unfold visitColumnIdentifier. intros H.
  destruct (visitNestedIdentifier_Ok psl (column_nestedIdentifier ctx))
    as (nested & E).
  rewrite E in H. cbn [mbind result_bind] in H.
  destruct (column_tableIdentifier ctx) as [t|]; simpl in H.
  - split_raise H.
    + destruct (visitTableIdentifier t); try discriminate;
        injection H as <-; reflexivity.
    + destruct nested; try discriminate; injection H as <-; reflexivity.
    + discriminate.
  - destruct nested; try discriminate.
    repeat match type of H with
      | context [if ?b then _ else _] => destruct b
      end; discriminate.
Qed.

Lemma visitLiteral_errors psl ctx e :
  visitLiteral psl ctx = Raise e -> converter_error e = true.
Proof.
  destruct ctx; cbn [visitLiteral]; try discriminate.
  unfold visitNumberLiteral.
  destruct (contains_dot text);
    [destruct (python_float_ok text)|destruct (python_int text)];
    try discriminate; intros [= <-]; reflexivity.
Qed.

Lemma array_access_errors object property e :
  array_access object property = Raise e -> converter_error e = true.
Proof.
  unfold array_access.
  destruct property; try (intros [= <-]; reflexivity).
  destruct object; try discriminate; intros [= <-]; reflexivity.
Qed.

Lemma integer_constant_errors clause node e :
  clause = "LIMIT" \/ clause = "OFFSET" ->
  integer_constant clause node = Raise e -> converter_error e = true.
Proof.
  intros [->| ->]; destruct node; simpl;
    try (intros [= <-]; reflexivity);
    destruct (isinstance_int v); try discriminate; intros [= <-]; reflexivity.
Qed.

Lemma unsupported_clauses_errors w t aj win g o lb s e :
  unsupported_clauses w t aj win g o lb s = Raise e ->
  converter_error e = true.
Proof.
  unfold unsupported_clauses.
  destruct w, t, aj, win, g, o, lb, s; try discriminate;
    intros [= <-]; reflexivity.
Qed.

Lemma join_type_string_errors joinOp e :
  join_type_string joinOp = Raise e -> converter_error e = true.
Proof.
  destruct joinOp as [[| | |]|]; cbn; try discriminate.
  intros [= <-]. reflexivity.
Qed.

Lemma attach_join_Ok join1 join2 join_constraint join_type :
  is_join_chain join1 = true ->
  exists r, attach_join join1 join2 join_constraint join_type = Ok r.
Proof.
  intros H.
  destruct (attach_join_steps join2 join_constraint join_type join1 H)
    as (r & _ & _ & E & _). eauto.
Qed.

(** No failure of the converter is an attribute error, and every failure
    is one of its own exceptions or a number literal's [ValueError]; by
    mutual structural induction on the parse tree. *)
Lemma visitColumnExpr_errors psl (ctx : ColumnExprContext) :
  forall e, visitColumnExpr psl ctx = Raise e -> converter_error e = true
with visitColumnsExpr_errors psl (ctx : ColumnsExprContext) :
  forall e, visitColumnsExpr psl ctx = Raise e -> converter_error e = true
with visitColumnArgExpr_errors psl (ctx : ColumnArgExprContext) :
  forall e, visitColumnArgExpr psl ctx = Raise e -> converter_error e = true
with visitSelectUnionStmt_errors psl (ctx : SelectUnionStmtContext) :
  forall e, visitSelectUnionStmt psl ctx = Raise e -> converter_error e = true
with visitSelectStmtWithParens_errors psl (ctx : SelectStmtWithParensContext) :
  forall e,
    visitSelectStmtWithParens psl ctx = Raise e -> converter_error e = true
with visitSelectStmt_errors psl (ctx : SelectStmtContext) :
  forall e, visitSelectStmt psl ctx = Raise e -> converter_error e = true
with visitJoinExpr_errors psl (ctx : JoinExprContext) :
  forall e, visitJoinExpr psl ctx = Raise e -> converter_error e = true
with visitJoinConstraintClause_errors psl (ctx : JoinConstraintClauseContext) :
  forall e,
    visitJoinConstraintClause psl ctx = Raise e -> converter_error e = true
with visitTableExpr_errors psl (ctx : TableExprContext) :
  forall e, visitTableExpr psl ctx = Raise e -> converter_error e = true.
Proof.
  - (* columnExpr *)
    destruct ctx; intros e H; cbn [visitColumnExpr] in H.
    + exact (visitLiteral_errors _ _ _ H).
    + exact (visitColumnIdentifier_errors _ _ _ H).
    + split_raise H; try discriminate;
        exact (visitColumnExpr_errors psl _ _ H).
    + split_raise H; try discriminate;
        try exact (visitColumnExpr_errors psl _ _ H).
      destruct operator; try discriminate. injection H as <-. reflexivity.
    + split_raise H; try discriminate;
        try exact (visitColumnExpr_errors psl _ _ H).
      destruct operator, GLOBAL; try discriminate;
        injection H as <-; reflexivity.
    + split_raise H; try discriminate;
        exact (visitColumnExpr_errors psl _ _ H).
    + split_raise H; try exact (visitColumnExpr_errors psl _ _ H).
      exact (array_access_errors _ _ _ H).
    + exact (visitColumnExpr_errors psl _ _ H).
    + split_raise H; try discriminate;
        exact (visitColumnExpr_errors psl _ _ H).
    + split_raise H; try discriminate;
        exact (visitColumnExpr_errors psl _ _ H).
    + split_raise H; try discriminate;
        exact (visitColumnExpr_errors psl _ _ H).
    + destruct columnExprList; [injection H as <-; reflexivity|].
      split_raise H; try discriminate.
      destruct columnArgList as [l|]; [|discriminate].
      refine (mapM_Raise _ (fun e => converter_error e = true) l _ e H).
      clear H.
      induction l as [|x l IH];
        [constructor
        |constructor; [exact (visitColumnArgExpr_errors psl x) | exact IH]].
    + discriminate.
    + exact (visitSelectUnionStmt_errors psl _ _ H).
    + injection H as <-. reflexivity.
  - (* columnsExpr *)
    destruct ctx; intros e H; cbn [visitColumnsExpr] in H.
    + discriminate.
    + exact (visitSelectUnionStmt_errors psl _ _ H).
    + exact (visitColumnExpr_errors psl _ _ H).
  - (* columnArgExpr *)
    destruct ctx; intros e H; cbn [visitColumnArgExpr] in H.
    + injection H as <-. reflexivity.
    + exact (visitColumnExpr_errors psl _ _ H).
  - (* selectUnionStmt *)
    destruct ctx as [selects]; intros e H; cbn [visitSelectUnionStmt] in H.
    destruct selects as [|select [|]];
      try (injection H as <-; reflexivity).
    exact (visitSelectStmtWithParens_errors psl _ _ H).
  - (* selectStmtWithParens *)
    destruct ctx; intros e H; cbn [visitSelectStmtWithParens] in H.
    + exact (visitSelectStmt_errors psl _ _ H).
    + exact (visitSelectUnionStmt_errors psl _ _ H).
  - (* selectStmt *)
    destruct ctx; intros e H; cbn [visitSelectStmt] in H.
    split_raise H; try discriminate.
    + destruct columnExprList as [l|]; [|discriminate].
      refine (mapM_Raise _ (fun e => converter_error e = true) l _ e H).
      clear H.
      induction l as [|x l IH];
        [constructor
        |constructor; [exact (visitColumnsExpr_errors psl x) | exact IH]].
    + destruct fromClause as [j|]; [|discriminate].
      apply fmap_Raise in H. exact (visitJoinExpr_errors psl _ _ H).
    + destruct whereClause as [c|]; [|discriminate].
      apply fmap_Raise in H. exact (visitColumnExpr_errors psl _ _ H).
    + destruct prewhereClause as [c|]; [|discriminate].
      apply fmap_Raise in H. exact (visitColumnExpr_errors psl _ _ H).
    + destruct havingClause as [c|]; [|discriminate].
      apply fmap_Raise in H. exact (visitColumnExpr_errors psl _ _ H).
    + destruct limitClause as [[c0 c1]|]; [|discriminate].
      split_raise H.
      * exact (visitColumnExpr_errors psl _ _ H).
      * exact (integer_constant_errors _ _ _ (or_introl eq_refl) H).
      * destruct c1 as [c1|]; [|discriminate].
        split_raise H; try discriminate.
        -- exact (visitColumnExpr_errors psl _ _ H).
        -- exact (integer_constant_errors _ _ _ (or_intror eq_refl) H).
    + exact (unsupported_clauses_errors _ _ _ _ _ _ _ _ _ H).
  - (* joinExpr *)
    destruct ctx; intros e H; cbn [visitJoinExpr] in H.
    + destruct GLOBAL; [injection H as <-; reflexivity|].
      destruct LOCAL; [injection H as <-; reflexivity|].
      split_raise H.
      * exact (visitJoinExpr_errors psl _ _ H).
      * exact (visitJoinExpr_errors psl _ _ H).
      * exact (join_type_string_errors _ _ H).
      * exact (visitJoinConstraintClause_errors psl _ _ H).
      * pose proof (visitJoinExpr_is_join_chain psl _ _ E) as Hc.
        destruct (attach_join_Ok a a0 a2 a1 Hc) as (r & Er).
        rewrite Er in H. discriminate.
    + injection H as <-. reflexivity.
    + destruct sampleClause; [injection H as <-; reflexivity|].
      split_raise H.
      * exact (visitTableExpr_errors psl _ _ H).
      * destruct a; discriminate.
    + exact (visitJoinExpr_errors psl _ _ H).
  - (* joinConstraintClause *)
    destruct ctx as [USING l]; intros e H;
      cbn [visitJoinConstraintClause] in H.
    destruct USING; [injection H as <-; reflexivity|].
    split_raise H.
    + refine (mapM_Raise _ (fun e => converter_error e = true) l _ e H).
      clear H.
      induction l as [|x l' IH];
        [constructor
        |constructor; [exact (visitColumnsExpr_errors psl x) | exact IH]].
    + destruct a as [|x [|]]; try discriminate;
        injection H as <-; reflexivity.
  - (* tableExpr *)
    destruct ctx; intros e H; cbn [visitTableExpr] in H.
    + discriminate.
    + injection H as <-. reflexivity.
    + exact (visitSelectUnionStmt_errors psl _ _ H).
    + split_raise H; try discriminate.
      exact (visitTableExpr_errors psl _ _ H).
Qed.

Lemma converter_error_cases (e : exn) :
  converter_error e = true ->
  (exists msg, e = NotImplementedError msg)
  \/ (exists msg, e = ValueError msg)
  \/ e = Exception "LIMIT must be an integer"
  \/ e = Exception "OFFSET must be an integer".
Proof.
  destruct e as [msg|msg|msg|msg]; cbn [converter_error]; intros H;
    try discriminate; eauto.
  apply orb_prop in H as [H|H]; apply String.eqb_eq in H; subst; auto.
Qed.

(** X11.  Whatever the parse tree, a failing conversion of an expression
    or a statement raises a [NotImplementedError], the [Exception] "LIMIT
    must be an integer" or "OFFSET must be an integer", or the [ValueError]
    of [int()]/[float()] on a number literal.  It never raises an attribute
    error: the [field] read in [visitNestedIdentifier] and the [join_expr]
    walk in [visitJoinExprOp] always find the attribute they read. *)
Theorem converter_raises_only_its_own_errors (psl : string -> string)
    (e : exn) :
  (exists ctx, visitColumnExpr psl ctx = Raise e)
  \/ (exists ctx, visitSelectQuery psl ctx = Raise e) ->
  is_attribute_error e = false
  /\ ((exists msg, e = NotImplementedError msg)
      \/ (exists msg, e = ValueError msg)
      \/ e = Exception "LIMIT must be an integer"
      \/ e = Exception "OFFSET must be an integer").
Proof.
  intros H.
  assert (converter_error e = true) as He.
  { destruct H as [(ctx & H)|([u|s] & H)].
    - exact (visitColumnExpr_errors psl ctx e H).
    - exact (visitSelectUnionStmt_errors psl u e H).
    - exact (visitSelectStmt_errors psl s e H). }
  split; [destruct e; try reflexivity; discriminate|].
  exact (converter_error_cases e He).
Qed.

(** X11 at [SELECT 1 LIMIT 1.5]. *)
Lemma converter_raises_only_its_own_errors_witness :
  is_attribute_error (Exception "LIMIT must be an integer") = false
  /\ ((exists msg, Exception "LIMIT must be an integer" = NotImplementedError msg)
      \/ (exists msg, Exception "LIMIT must be an integer" = ValueError msg)
      \/ Exception "LIMIT must be an integer"
         = Exception "LIMIT must be an integer"
      \/ Exception "LIMIT must be an integer"
         = Exception "OFFSET must be an integer").
Proof.
  apply (converter_raises_only_its_own_errors strip_delimiters).
  right. exists (select_1_limit (number "1.5") None). reflexivity.
Defined.
